(** * The Ceph receive adapter (pkg/adapter/adapter.go)

    A shallow embedding of the adapter that turns Ceph bucket notifications
    into CloudEvents and sends them to a sink, and the properties of its
    HTTP handler [postHandler] and of [postMessage] / [sendCloudEvent].

    Everything the adapter does to the outside (the sink transport, the
    logger, the wall clock) is threaded through an explicit [World]: a
    computation of the adapter is a function from a world to a value and
    the next world. *)

From Stdlib Require Import ZArith Ascii String.
From stdpp Require Import base strings list gmap.

Local Open Scope Z_scope.

(** ** Go values *)

(** Go [error] values, as far as the adapter looks at them: their text
    ([err.Error()]) and, for [fmt.Errorf] with the verb [%w], the wrapped
    cause. *)
Inductive error : Type :=
| errorString (msg : string)
| wrapError (msg : string) (cause : error).

Definition Error (e : error) : string :=
  match e with
  | errorString msg => msg
  | wrapError msg _ => msg
  end.

(** [fmt.Errorf(prefix + "%w", err)]: the text is the prefix followed by
    the text of [err], and [err] is kept as the cause. *)
Definition fmt_Errorf_w (prefix : string) (err : error) : error :=
  wrapError (prefix +:+ Error err) err.

(** A Go pair [(v, err)] whose [v] is meaningful only when [err == nil]. *)
Inductive result (T : Type) : Type :=
| Ok (v : T)
| Err (err : error).
Arguments Ok {T} v.
Arguments Err {T} err.

(** [protocol.Result] of the CloudEvents SDK is Go's [error]; [None] is
    the nil result. *)
Abbreviation Result := (option error).

(** [time.Time], as an instant in nanoseconds since the Unix epoch. *)
Abbreviation Time := Z.

Definition RFC3339 : string := "2006-01-02T15:04:05Z07:00".

(** ** strings.TrimSpace *)

(** A string from the numbers of its bytes. *)
Definition bytes_string (bytes : list nat) : string :=
  string_of_list_ascii (List.map ascii_of_nat bytes).

(** The UTF-8 encodings of the runes [unicode.IsSpace] accepts: tab, line
    feed, vertical tab, form feed, carriage return, space, U+0085,
    U+00A0, U+1680, U+2000 to U+200A, U+2028, U+2029, U+202F, U+205F and
    U+3000. *)
Definition white_space : list string :=
  List.map bytes_string
    [[9]; [10]; [11]; [12]; [13]; [32]; [194; 133]; [194; 160];
     [225; 154; 128];
     [226; 128; 128]; [226; 128; 129]; [226; 128; 130]; [226; 128; 131];
     [226; 128; 132]; [226; 128; 133]; [226; 128; 134]; [226; 128; 135];
     [226; 128; 136]; [226; 128; 137]; [226; 128; 138];
     [226; 128; 168]; [226; 128; 169]; [226; 128; 175];
     [226; 129; 159]; [227; 128; 128]]%nat.

(** [drop_prefix p s] is the rest of [s] after its prefix [p], if [p] is
    a prefix of [s]. *)
Fixpoint drop_prefix (p s : string) : option string :=
  match p, s with
  | EmptyString, _ => Some s
  | String a p', String b s' =>
      if Ascii.eqb a b then drop_prefix p' s' else None
  | String _ _, EmptyString => None
  end.

(** The rest of [s] after one leading rune out of [runes], if it starts
    with one. *)
Fixpoint drop_rune (runes : list string) (s : string) : option string :=
  match runes with
  | [] => None
  | rune :: runes =>
      match drop_prefix rune s with
      | Some s' => Some s'
      | None => drop_rune runes s
      end
  end.

(** Leading runes out of [runes] dropped, at most [fuel] of them. *)
Fixpoint drop_runes (runes : list string) (fuel : nat) (s : string) : string :=
  match fuel with
  | O => s
  | S fuel =>
      match drop_rune runes s with
      | Some s' => drop_runes runes fuel s'
      | None => s
      end
  end.

Definition strings_TrimLeft (s : string) : string :=
  drop_runes white_space (String.length s) s.

(** A white-space rune ends a string exactly when its encoding, read
    backwards, starts the string read backwards. *)
Definition strings_TrimRight (s : string) : string :=
  String.rev
    (drop_runes (List.map String.rev white_space) (String.length s) (String.rev s)).

(** [strings.TrimSpace]: the string without its leading and trailing
    white space. *)
Definition strings_TrimSpace (s : string) : string :=
  strings_TrimRight (strings_TrimLeft s).
Arguments strings_TrimSpace : simpl never.

(** ** The notification types *)

Module ceph.

(** The types [BucketNotification] and [BucketNotifications] are declared
    in pkg/apis/bindings/v1alpha1, whose source is not at hand. The
    fields below are the ones [postMessage] and [postHandler] select,
    nested as the selectors are ([notification.S3.Bucket.Name], ...);
    they are the fields the specification lists for a raw record. *)

(** Modelled from the spec: the struct behind
    [notification.ResponseElements], with the pair of
    response-correlation identifiers. *)
Record ResponseElementsT : Type := {
  XAmzRequestID : string;
  XAmzID2 : string
}.

(** Modelled from the spec: the struct behind [notification.S3.Bucket],
    with the bucket name. *)
Record BucketT : Type := { Name : string }.

(** Modelled from the spec: the struct behind [notification.S3.Object],
    with the object key. *)
Record ObjectT : Type := { Key : string }.

(** Modelled from the spec: the struct behind [notification.S3]. *)
Record S3T : Type := {
  Bucket : BucketT;
  Object : ObjectT
}.

(** Modelled from the spec: the raw notification record
    [ceph.BucketNotification]: event source, region, event time (a
    string, expected in RFC 3339), event name, and the two structs
    above. *)
Record BucketNotification : Type := {
  EventSource : string;
  AwsRegion : string;
  EventTime : string;
  EventName : string;
  ResponseElements : ResponseElementsT;
  S3 : S3T
}.

(** Modelled from the spec: the raw notification batch
    [ceph.BucketNotifications], the ordered sequence of records under
    the JSON field Records. A field that is absent decodes to the nil
    slice, which is the empty list here. *)
Record BucketNotifications : Type := {
  Records : list BucketNotification
}.

End ceph.

(** ** What the adapter takes from its libraries *)

(** The pure library functions the adapter calls and whose results it
    branches on: [time.Parse], [json.Unmarshal] into a
    [ceph.BucketNotifications], the SDK's JSON encoder behind
    [Event.SetData], and the SDK's test whether a non-nil result is an
    acknowledgement; and [url_Parse_String], which is [url.Parse]
    followed by [String] on the URL parsed: the text the SDK keeps of a
    source. *)
Class Platform : Type := {
  time_Parse : string -> string -> result Time;
  url_Parse_String : string -> result string;
  json_Unmarshal : list Byte.byte -> result ceph.BucketNotifications;
  datacodec_Encode : string -> ceph.BucketNotification -> result (list Byte.byte);
  is_ResultACK : error -> bool
}.

Module adapter.

Record MetricTag : Type := {
  Namespace : string;
  Name : string;
  ResourceGroup : string
}.

End adapter.

(** [context.Context], reduced to the one value the adapter puts in it. *)
Record Context : Type := { ctx_metricTag : option adapter.MetricTag }.

Definition context_Background : Context := {| ctx_metricTag := None |}.

Definition ContextWithMetricTag (ctx : Context) (metricTag : adapter.MetricTag) : Context :=
  {| ctx_metricTag := Some metricTag |}.

Module cloudevents.

Definition ApplicationJSON : string := "application/json".

(** The event under construction: the attributes the adapter sets, as
    the getters of the SDK return them (an attribute that is not set
    reads as the empty string), and the encoded data. *)
Record Event : Type := {
  ID : string;
  Source : string;
  EventType : string;
  Subject : string;
  EventTime : Time;
  DataContentType : string;
  Data : list Byte.byte
}.

Definition NewEvent : Event :=
  {| ID := EmptyString; Source := EmptyString; EventType := EmptyString;
     Subject := EmptyString; EventTime := 0;
     DataContentType := EmptyString; Data := [] |}.

(** [event.SetID(id)]: the id is trimmed; an id that is then empty is
    refused and the event keeps the id it had. *)
Definition SetID (e : Event) (id : string) : Event :=
  let id := strings_TrimSpace id in
  if bool_decide (id = EmptyString) then e
  else
    {| ID := id; Source := Source e; EventType := EventType e;
       Subject := Subject e; EventTime := EventTime e;
       DataContentType := DataContentType e; Data := Data e |}.

(** [event.SetSource(source)]: the source is parsed as a URL and kept as
    the text of that URL; a source that does not parse is refused and
    the event keeps the source it had. *)
Definition SetSource `{Platform} (e : Event) (source : string) : Event :=
  match url_Parse_String source with
  | Err _ => e
  | Ok source =>
      {| ID := ID e; Source := source; EventType := EventType e;
         Subject := Subject e; EventTime := EventTime e;
         DataContentType := DataContentType e; Data := Data e |}
  end.

(** [event.SetType(t)]: the type is trimmed. *)
Definition SetType (e : Event) (t : string) : Event :=
  {| ID := ID e; Source := Source e; EventType := strings_TrimSpace t;
     Subject := Subject e; EventTime := EventTime e;
     DataContentType := DataContentType e; Data := Data e |}.

(** [event.SetSubject(s)]: the subject is trimmed; a subject that is
    then empty is unset, which reads as the empty string. *)
Definition SetSubject (e : Event) (s : string) : Event :=
  {| ID := ID e; Source := Source e; EventType := EventType e;
     Subject := strings_TrimSpace s; EventTime := EventTime e;
     DataContentType := DataContentType e; Data := Data e |}.

Definition SetTime (e : Event) (t : Time) : Event :=
  {| ID := ID e; Source := Source e; EventType := EventType e;
     Subject := Subject e; EventTime := t;
     DataContentType := DataContentType e; Data := Data e |}.

Definition SetDataContentType (e : Event) (ct : string) : Event :=
  {| ID := ID e; Source := Source e; EventType := EventType e;
     Subject := Subject e; EventTime := EventTime e;
     DataContentType := ct; Data := Data e |}.

(** [event.SetData(contentType, obj)]: the content type is set, then
    [obj] is encoded; the data is stored only if the encoder succeeds. *)
Definition SetData `{Platform} (e : Event) (contentType : string)
    (obj : ceph.BucketNotification) : Event * Result :=
  let e := SetDataContentType e contentType in
  match datacodec_Encode contentType obj with
  | Err err => (e, Some err)
  | Ok data =>
      ({| ID := ID e; Source := Source e; EventType := EventType e;
          Subject := Subject e; EventTime := EventTime e;
          DataContentType := DataContentType e; Data := data |}, None)
  end.

(** [cloudevents.IsACK]: a nil result is an acknowledgement. *)
Definition IsACK `{Platform} (target : Result) : bool :=
  match target with
  | None => true
  | Some err => is_ResultACK err
  end.

(** [cloudevents.Client]: the sink transport. [C] is the state of the
    transport; [client_Send] is one round trip. *)
Class Client (C : Type) : Type :=
  client_Send : C -> Context -> Event -> Result * C.

End cloudevents.

(** ** net/http *)

Module http.

Definition StatusOK : Z := 200.
Definition StatusBadRequest : Z := 400.
Definition StatusMethodNotAllowed : Z := 405.

(** The body of a request as [ioutil.ReadAll] sees it: the bytes read,
    and the error that ended the read if it was not the end of the
    body. *)
Record ReadCloser : Type := {
  content : list Byte.byte;
  failure : option error
}.

Record Request : Type := {
  Method : string;
  Body : ReadCloser
}.

(** What a handler has done to its [http.ResponseWriter]: the header
    map, the status line if one was written, the body written. *)
Record ResponseWriter : Type := {
  header : gmap string (list string);
  status : option Z;
  body : string
}.

Definition NewRecorder : ResponseWriter :=
  {| header := ∅; status := None; body := EmptyString |}.

(** [w.Header().Set(key, value)] *)
Definition Header_Set (key value : string) (w : ResponseWriter) : ResponseWriter :=
  {| header := <[key := [value]]> (header w); status := status w; body := body w |}.

(** [w.Header().Del(key)] *)
Definition Header_Del (key : string) (w : ResponseWriter) : ResponseWriter :=
  {| header := delete key (header w); status := status w; body := body w |}.

(** [w.WriteHeader(code)]: only the first call counts. *)
Definition WriteHeader (code : Z) (w : ResponseWriter) : ResponseWriter :=
  match status w with
  | Some _ => w
  | None => {| header := header w; status := Some code; body := body w |}
  end.

(** [w.Write(s)]: writes the status line 200 first if none was written. *)
Definition Write (s : string) (w : ResponseWriter) : ResponseWriter :=
  let w := WriteHeader StatusOK w in
  {| header := header w; status := status w; body := body w +:+ s |}.

Definition newline : string := String "010"%char EmptyString.

(** [http.Error(w, msg, code)]: the message is written with
    [fmt.Fprintln], so a newline follows it. *)
Definition Error (w : ResponseWriter) (msg : string) (code : Z) : ResponseWriter :=
  let w := Header_Del "Content-Length" w in
  let w := Header_Set "Content-Type" "text/plain; charset=utf-8" w in
  let w := Header_Set "X-Content-Type-Options" "nosniff" w in
  let w := WriteHeader code w in
  Write (msg +:+ newline) w.

(** The status the client receives: 200 when the handler returns
    without writing one. *)
Definition statusCode (w : ResponseWriter) : Z :=
  default StatusOK (status w).

End http.

Definition ioutil_ReadAll (r : http.ReadCloser) : list Byte.byte * option error :=
  (http.content r, http.failure r).

(** ** The world of the adapter *)

Inductive Level : Type := DebugLevel | InfoLevel | ErrorLevel.

(** The arguments of a log call, kept as values: the model does not
    render format strings. *)
Inductive LogArg : Type :=
| ArgString (s : string)
| ArgInt (n : Z)
| ArgNotification (n : ceph.BucketNotification)
| ArgError (key : string) (err : Result)
| ArgField (key value : string).

Record LogEntry : Type := {
  log_level : Level;
  log_format : string;
  log_args : list LogArg
}.

(** One invocation of the sink: what [client.Send] was given and what it
    answered. *)
Record Call : Type := {
  call_ctx : Context;
  call_event : cloudevents.Event;
  call_result : Result
}.

(** The world: the state of the sink transport behind [ca.client], the
    wall clock ([clock] gives the successive readings of [time.Now],
    [ticks] counts the readings taken), the lines written through
    [ca.logger], and the record [calls] of the invocations of the sink,
    oldest first. *)
Record World (C : Type) : Type := {
  sink : C;
  clock : nat -> Time;
  ticks : nat;
  logged : list LogEntry;
  calls : list Call
}.
Arguments sink {C} _.
Arguments clock {C} _.
Arguments ticks {C} _.
Arguments logged {C} _.
Arguments calls {C} _.

(** A computation of the adapter. *)
Definition M (C A : Type) : Type := World C -> A * World C.

Definition ret {C A : Type} (a : A) : M C A := fun s => (a, s).

Definition bind {C A B : Type} (m : M C A) (k : A -> M C B) : M C B :=
  fun s => let (a, s') := m s in k a s'.

Declare Scope adapter_scope.
Delimit Scope adapter_scope with adapter.
Notation "x <- c1 ;; c2" := (bind c1 (fun x => c2))
  (at level 100, c1 at next level, right associativity) : adapter_scope.
Notation "c1 ;; c2" := (bind c1 (fun _ => c2))
  (at level 100, right associativity) : adapter_scope.

(** The wall-clock reading the next [time.Now] returns. *)
Definition wallclock {C : Type} (s : World C) : Time := clock s (ticks s).

Definition time_Now {C : Type} : M C Time :=
  fun s => (wallclock s,
            {| sink := sink s; clock := clock s; ticks := S (ticks s);
               logged := logged s; calls := calls s |}).

Definition logger_log {C : Type} (lvl : Level) (format : string)
    (args : list LogArg) : M C unit :=
  fun s => (tt,
            {| sink := sink s; clock := clock s; ticks := ticks s;
               logged := logged s ++
                 [{| log_level := lvl; log_format := format; log_args := args |}];
               calls := calls s |}).

Definition logger_Debugf {C : Type} := @logger_log C DebugLevel.
Definition logger_Infof {C : Type} := @logger_log C InfoLevel.
Definition logger_Errorw {C : Type} := @logger_log C ErrorLevel.

(** [ca.client.Send(ctx, event)]: one round trip of the transport, and
    its record in [calls]. *)
Definition client_call {C : Type} `{cloudevents.Client C} (ctx : Context)
    (event : cloudevents.Event) : M C Result :=
  fun s =>
    let (result, c) := cloudevents.client_Send (sink s) ctx event in
    (result,
     {| sink := c; clock := clock s; ticks := ticks s; logged := logged s;
        calls := calls s ++
          [{| call_ctx := ctx; call_event := event; call_result := result |}] |}).

(** The invocations of the sink between an earlier world and a later
    one. *)
Definition new_calls {C : Type} (s s' : World C) : list Call :=
  drop (length (calls s)) (calls s').

(** ** The adapter *)

Definition resourceGroup : string := "cephsources.sources.knative.dev".

(** [cephReceiveAdapter]: the fields that are values. The logger and the
    client are handles to objects that live in the world. *)
Record cephReceiveAdapter : Type := {
  port : string;
  name : string;
  namespace : string
}.

Section Adapter.

Context `{Platform} {C : Type} `{cloudevents.Client C}.

Local Open Scope adapter_scope.

(** [sendCloudEvent] sends a cloudevent for a ceph notification. *)
Definition sendCloudEvent (ca : cephReceiveAdapter) (ctx : Context)
    (event : cloudevents.Event) : M C Result :=
  let source := cloudevents.Source event in
  let subject := cloudevents.Subject event in
  logger_Debugf "sending cloudevent id: %s, source: %s, subject: %s"
    [ArgString (cloudevents.ID event); ArgString source; ArgString subject];;
  result <- client_call ctx event;;
  if negb (cloudevents.IsACK result) then
    logger_Errorw "failed to send cloudevent"
      [ArgError "error" result; ArgField "source" source;
       ArgField "subject" subject; ArgField "id" (cloudevents.ID event)];;
    ret result
  else
    logger_Debugf "cloudevent sent id: %s, source: %s, subject: %s"
      [ArgString (cloudevents.ID event); ArgString source; ArgString subject];;
    ret None.

(** [postMessage] converts a bucket notification to an event and sends
    it. *)
Definition postMessage (ca : cephReceiveAdapter)
    (notification : ceph.BucketNotification) : M C Result :=
  eventTime <-
    match time_Parse RFC3339 (ceph.EventTime notification) with
    | Ok eventTime => ret eventTime
    | Err err =>
        logger_Infof "Failed to parse event timestamp, using local time. Error: %s"
          [ArgString (Error err)];;
        time_Now
    end;;
  let event := cloudevents.NewEvent in
  let event := cloudevents.SetID event
    (ceph.XAmzRequestID (ceph.ResponseElements notification) +:+
     ceph.XAmzID2 (ceph.ResponseElements notification)) in
  let event := cloudevents.SetSource event
    (ceph.EventSource notification +:+ "." +:+ ceph.AwsRegion notification +:+ "." +:+
     ceph.Name (ceph.Bucket (ceph.S3 notification))) in
  let event := cloudevents.SetType event ("com.amazonaws." +:+ ceph.EventName notification) in
  let event := cloudevents.SetSubject event (ceph.Key (ceph.Object (ceph.S3 notification))) in
  let event := cloudevents.SetTime event eventTime in
  let (event, err) := cloudevents.SetData event cloudevents.ApplicationJSON notification in
  match err with
  | Some err => ret (Some (fmt_Errorf_w "failed to marshal event data: " err))
  | None =>
      let ctx := context_Background in
      let metricTag :=
        {| adapter.Namespace := namespace ca;
           adapter.Name := name ca;
           adapter.ResourceGroup := resourceGroup |} in
      let ctx := ContextWithMetricTag ctx metricTag in
      sendCloudEvent ca ctx event
  end.

(** The [for ... range notifications.Records] loop of [postHandler]. The
    [return] inside the loop is the [Some err] it yields: the first
    error stops the loop, [None] means it ran to the end. *)
Fixpoint postHandler_range (ca : cephReceiveAdapter)
    (records : list ceph.BucketNotification) : M C Result :=
  match records with
  | [] => ret None
  | notification :: records =>
      logger_Debugf "Received Ceph bucket notification: %+v"
        [ArgNotification notification];;
      err <- postMessage ca notification;;
      match err with
      | Some err => ret (Some err)
      | None => postHandler_range ca records
      end
  end.

(** [postHandler] handles incoming bucket notifications from ceph. *)
Definition postHandler (ca : cephReceiveAdapter) (w : http.ResponseWriter)
    (r : http.Request) : M C http.ResponseWriter :=
  let w := http.Header_Set "Allow" "POST" w in
  if negb (bool_decide (http.Method r = "POST")) then
    logger_Infof "%s method not allowed" [ArgString (http.Method r)];;
    ret (http.Error w "405 Method Not Allowed" http.StatusBadRequest)
  else
    let (body, err) := ioutil_ReadAll (http.Body r) in
    match err with
    | Some err =>
        logger_Infof "Error reading message body: %s" [ArgString (Error err)];;
        ret (http.Error w (Error err) http.StatusBadRequest)
    | None =>
        match json_Unmarshal body with
        | Err err =>
            logger_Infof "Failed to parse JSON: %s" [ArgString (Error err)];;
            ret (http.Error w (Error err) http.StatusBadRequest)
        | Ok notifications =>
            logger_Debugf "%d events found in message"
              [ArgInt (Z.of_nat (length (ceph.Records notifications)))];;
            err <- postHandler_range ca (ceph.Records notifications);;
            match err with
            | Some err => ret (http.Error w (Error err) http.StatusBadRequest)
            | None => ret w
            end
        end
    end.

End Adapter.

(** ** Notions used to state the properties *)

(** Two worlds that differ at most in the lines logged. *)
Definition agree {C : Type} (s s' : World C) : Prop :=
  sink s = sink s' /\ clock s = clock s' /\ ticks s = ticks s' /\
  calls s = calls s'.

(** The attributes of the envelope of a record, as the SDK keeps them:
    the two correlation identifiers joined and trimmed; the text of the
    URL parsed from eventSource.awsRegion.bucketName, or nothing if that
    does not parse; the prefix and the event name, trimmed; the object
    key, trimmed. *)
Definition id_of (n : ceph.BucketNotification) : string :=
  strings_TrimSpace
    (ceph.XAmzRequestID (ceph.ResponseElements n) +:+
     ceph.XAmzID2 (ceph.ResponseElements n)).

Definition source_of `{Platform} (n : ceph.BucketNotification) : string :=
  match
    url_Parse_String
      (ceph.EventSource n +:+ "." +:+ ceph.AwsRegion n +:+ "." +:+
       ceph.Name (ceph.Bucket (ceph.S3 n)))
  with
  | Ok source => source
  | Err _ => EmptyString
  end.

Definition type_of (n : ceph.BucketNotification) : string :=
  strings_TrimSpace ("com.amazonaws." +:+ ceph.EventName n).

Definition subject_of (n : ceph.BucketNotification) : string :=
  strings_TrimSpace (ceph.Key (ceph.Object (ceph.S3 n))).

(** [mapped n e]: [e] is the envelope of the record [n], up to its time. *)
Definition mapped `{Platform} (n : ceph.BucketNotification)
    (e : cloudevents.Event) : Prop :=
  cloudevents.ID e = id_of n /\
  cloudevents.Source e = source_of n /\
  cloudevents.EventType e = type_of n /\
  cloudevents.Subject e = subject_of n /\
  datacodec_Encode cloudevents.ApplicationJSON n = Ok (cloudevents.Data e).

(** [delivered n c]: the invocation [c] of the sink carried the envelope
    of [n] and was acknowledged. *)
Definition delivered `{Platform} (n : ceph.BucketNotification) (c : Call) : Prop :=
  mapped n (call_event c) /\ cloudevents.IsACK (call_result c) = true.

(** The metric tag every outbound call carries. *)
Definition tagged (ca : cephReceiveAdapter) : Context :=
  {| ctx_metricTag :=
       Some {| adapter.Namespace := namespace ca;
               adapter.Name := name ca;
               adapter.ResourceGroup := resourceGroup |} |}.

(** The time [postMessage] gives the event of [n] when started in [s]:
    the parsed event time, or the reading of the wall clock. *)
Definition eventTime_of `{Platform} {C : Type} (n : ceph.BucketNotification)
    (s : World C) : Time :=
  match time_Parse RFC3339 (ceph.EventTime n) with
  | Ok t => t
  | Err _ => wallclock s
  end.

(** The three ways [postMessage ca n] can end when started in [s]: the
    record cannot be encoded and the sink is not called; the sink is
    called once and acknowledges; the sink is called once and its
    result, which is not an acknowledgement, is returned. *)
Inductive postMessage_outcome `{Platform} {C : Type} `{cloudevents.Client C}
    (ca : cephReceiveAdapter) (n : ceph.BucketNotification) (s : World C)
    : Result * World C -> Prop :=
| outcome_unencodable (err : error) (s' : World C) :
    datacodec_Encode cloudevents.ApplicationJSON n = Err err ->
    calls s' = calls s ->
    sink s' = sink s ->
    postMessage_outcome ca n s
      (Some (fmt_Errorf_w "failed to marshal event data: " err), s')
| outcome_acknowledged (c : Call) (s' : World C) :
    mapped n (call_event c) ->
    cloudevents.EventTime (call_event c) = eventTime_of n s ->
    call_ctx c = tagged ca ->
    cloudevents.client_Send (sink s) (call_ctx c) (call_event c) =
      (call_result c, sink s') ->
    calls s' = calls s ++ [c] ->
    cloudevents.IsACK (call_result c) = true ->
    postMessage_outcome ca n s (None, s')
| outcome_rejected (c : Call) (err : error) (s' : World C) :
    mapped n (call_event c) ->
    cloudevents.EventTime (call_event c) = eventTime_of n s ->
    call_ctx c = tagged ca ->
    cloudevents.client_Send (sink s) (call_ctx c) (call_event c) =
      (call_result c, sink s') ->
    calls s' = calls s ++ [c] ->
    call_result c = Some err ->
    cloudevents.IsACK (Some err) = false ->
    postMessage_outcome ca n s (Some err, s').

(** The event [postMessage] builds for the record [n], given the event
    time [t] and the encoded record [data]: every attribute, spelled
    out. *)
Definition envelope `{Platform} (n : ceph.BucketNotification) (t : Time)
    (data : list Byte.byte) : cloudevents.Event :=
  {| cloudevents.ID := id_of n;
     cloudevents.Source := source_of n;
     cloudevents.EventType := type_of n;
     cloudevents.Subject := subject_of n;
     cloudevents.EventTime := t;
     cloudevents.DataContentType := cloudevents.ApplicationJSON;
     cloudevents.Data := data |}.

(** Whether the event time of a record fails to parse. *)
Definition unparsable `{Platform} (n : ceph.BucketNotification) : bool :=
  match time_Parse RFC3339 (ceph.EventTime n) with
  | Ok _ => false
  | Err _ => true
  end.

(** [sent_for ca n c]: the invocation [c] of the sink carried the
    envelope of [n] and the metric tag of [ca]. *)
Definition sent_for `{Platform} (ca : cephReceiveAdapter)
    (n : ceph.BucketNotification) (c : Call) : Prop :=
  mapped n (call_event c) /\ call_ctx c = tagged ca.

(** The lines logged between an earlier world and a later one, and how
    many of a list of lines are at error level. *)
Definition new_logged {C : Type} (s s' : World C) : list LogEntry :=
  drop (length (logged s)) (logged s').

Definition is_error_line (e : LogEntry) : bool :=
  match log_level e with
  | ErrorLevel => true
  | _ => false
  end.

Definition error_lines (l : list LogEntry) : nat :=
  length (List.filter is_error_line l).

(** ** Building the adapter *)

Module env.

(** [adapter.EnvConfig] of knative.dev/eventing, reduced to the two
    fields [NewAdapter] reads through the embedding. *)
Record EnvConfig : Type := {
  Namespace : string;
  Name : string
}.

End env.

(** [envConfig]: the embedded [adapter.EnvConfig] and the port. *)
Record envConfig : Type := {
  EnvConfig : env.EnvConfig;
  Port : string
}.

(** A value of the interface [adapter.EnvConfigAccessor]: a pointer to an
    [envConfig] ([None] is the nil pointer), or a value of another
    type. *)
Inductive EnvConfigAccessor : Type :=
| accessor_envConfig (p : option envConfig)
| accessor_other.

(** [NewEnvConfig] returns a pointer to the zero [envConfig]. *)
Definition NewEnvConfig : EnvConfigAccessor :=
  accessor_envConfig
    (Some {| EnvConfig := {| env.Namespace := EmptyString; env.Name := EmptyString |};
             Port := EmptyString |}).

(** [NewAdapter]: the type assertion of [processed] to a pointer to
    [envConfig] panics on a value of another type and the field reads
    panic on the nil pointer; [None] is the panic. The logger taken from the context and
    the client are the handles that live in the world. *)
Definition NewAdapter (processed : EnvConfigAccessor) : option cephReceiveAdapter :=
  match processed with
  | accessor_envConfig (Some env) =>
      Some {| port := Port env;
              name := env.Name (EnvConfig env);
              namespace := env.Namespace (EnvConfig env) |}
  | accessor_envConfig None => None
  | accessor_other => None
  end.

(** ** A concrete setting *)

Module Scenario.

Definition quote : string := String "034"%char EmptyString.

Definition member (key value : string) : string :=
  quote +:+ key +:+ quote +:+ ":" +:+ value.

Definition text (s : string) : string := quote +:+ s +:+ quote.

(** The JSON text of a record, with the field names of the raw schema. *)
Definition render (n : ceph.BucketNotification) : string :=
  "{" +:+ member "eventName" (text (ceph.EventName n)) +:+ "," +:+
  member "eventTime" (text (ceph.EventTime n)) +:+ "," +:+
  member "eventSource" (text (ceph.EventSource n)) +:+ "," +:+
  member "awsRegion" (text (ceph.AwsRegion n)) +:+ "," +:+
  member "s3"
    ("{" +:+
     member "bucket"
       ("{" +:+ member "name" (text (ceph.Name (ceph.Bucket (ceph.S3 n)))) +:+ "}")
     +:+ "," +:+
     member "object"
       ("{" +:+ member "key" (text (ceph.Key (ceph.Object (ceph.S3 n)))) +:+ "}")
     +:+ "}") +:+ "," +:+
  member "responseElements"
    ("{" +:+
     member "x-amz-request-id" (text (ceph.XAmzRequestID (ceph.ResponseElements n)))
     +:+ "," +:+
     member "x-amz-id-2" (text (ceph.XAmzID2 (ceph.ResponseElements n)))
     +:+ "}") +:+ "}".

Fixpoint render_list (ns : list ceph.BucketNotification) : string :=
  match ns with
  | [] => EmptyString
  | [n] => render n
  | n :: ns => render n +:+ "," +:+ render_list ns
  end.

Definition render_batch (b : ceph.BucketNotifications) : string :=
  "{" +:+ member "Records" ("[" +:+ render_list (ceph.Records b) +:+ "]") +:+ "}".

Definition notification (time requestID id2 key : string) : ceph.BucketNotification :=
  {| ceph.EventSource := "ceph:s3";
     ceph.AwsRegion := "us-east-1";
     ceph.EventTime := time;
     ceph.EventName := "ObjectCreated:Put";
     ceph.ResponseElements :=
       {| ceph.XAmzRequestID := requestID; ceph.XAmzID2 := id2 |};
     ceph.S3 := {| ceph.Bucket := {| ceph.Name := "mybucket" |};
                   ceph.Object := {| ceph.Key := key |} |} |}.

Definition put : ceph.BucketNotification :=
  notification "2021-01-01T00:00:00Z" "abc" "123" "file.txt".

Definition put_undated : ceph.BucketNotification :=
  notification "yesterday" "abd" "124" "other.txt".

Definition put_anonymous : ceph.BucketNotification :=
  notification "2021-01-01T00:00:00Z" EmptyString EmptyString "file.txt".

Definition batch (ns : list ceph.BucketNotification) : ceph.BucketNotifications :=
  {| ceph.Records := ns |}.

(** The batches the decoder of this setting knows. *)
Definition known : list ceph.BucketNotifications :=
  [batch []; batch [put]; batch [put; put_undated];
   batch [put; put_undated; put]; batch [put_anonymous]].

Definition parse (layout value : string) : result Time :=
  if String.eqb value "2021-01-01T00:00:00Z" then Ok 1609459200000000000
  else Err (errorString ("parsing time " +:+ value)).

Definition decode (body : list Byte.byte) : result ceph.BucketNotifications :=
  match
    List.find (fun b => String.eqb (string_of_list_byte body) (render_batch b)) known
  with
  | Some b => Ok b
  | None => Err (errorString "invalid character looking for beginning of value")
  end.

Definition encode (mediaType : string) (n : ceph.BucketNotification)
    : result (list Byte.byte) :=
  Ok (list_byte_of_string (render n)).

Definition refuse (mediaType : string) (n : ceph.BucketNotification)
    : result (list Byte.byte) :=
  Err (errorString "json: unsupported value").

(** The references this setting renders: lower-case letters, digits,
    dots and hyphens, after an optional scheme of lower-case letters and
    a colon. [url.Parse] takes such a string for a path, or for a scheme
    and an opaque part, and [String] gives the string back. *)
Definition plain (a : ascii) : bool :=
  let c := nat_of_ascii a in
  ((97 <=? c) && (c <=? 122) || (48 <=? c) && (c <=? 57) ||
   (c =? 46) || (c =? 45))%nat.

Definition letter (a : ascii) : bool :=
  let c := nat_of_ascii a in ((97 <=? c) && (c <=? 122))%nat.

Fixpoint all_ascii (f : ascii -> bool) (s : string) : bool :=
  match s with
  | EmptyString => true
  | String a s => f a && all_ascii f s
  end.

Fixpoint after_scheme (s : string) : option string :=
  match s with
  | EmptyString => None
  | String a s =>
      if Ascii.eqb a ":"%char then Some s
      else if letter a then after_scheme s else None
  end.

Definition reference (s : string) : result string :=
  if all_ascii plain s then Ok s
  else
    match s, after_scheme s with
    | String a _, Some (String b rest) =>
        if letter a && all_ascii plain (String b rest) then Ok s
        else Err (errorString "reference outside this setting")
    | _, _ => Err (errorString "reference outside this setting")
    end.

(** A platform whose encoder works, and one whose encoder fails. *)
Definition sdk : Platform :=
  {| time_Parse := parse; url_Parse_String := reference;
     json_Unmarshal := decode;
     datacodec_Encode := encode; is_ResultACK := fun _ => false |}.

Definition sdk_refusing : Platform :=
  {| time_Parse := parse; url_Parse_String := reference;
     json_Unmarshal := decode;
     datacodec_Encode := refuse; is_ResultACK := fun _ => false |}.

(** A record whose correlation identifiers carry white space around
    them. *)
Definition tab : string := String "009"%char EmptyString.

Definition put_padded : ceph.BucketNotification :=
  notification "2021-01-01T00:00:00Z" " abc" ("123" +:+ tab) "file.txt".

(** A sink that accepts everything, and one that counts its calls and
    rejects call number [k] (counting from 0). *)
Definition accepting : cloudevents.Client unit :=
  fun c _ _ => (None, c).

Definition rejecting (k : nat) : cloudevents.Client nat :=
  fun c _ _ =>
    (if Nat.eqb c k then Some (errorString "503 Service Unavailable") else None,
     S c).

Definition world {C : Type} (c : C) : World C :=
  {| sink := c;
     clock := fun n => 1700000000000000000 + Z.of_nat n;
     ticks := 0%nat; logged := []; calls := [] |}.

Definition ca : cephReceiveAdapter :=
  {| port := "8080"; name := "ceph-source"; namespace := "default" |}.

Definition request (method : string) (body : string) : http.Request :=
  {| http.Method := method;
     http.Body := {| http.content := list_byte_of_string body;
                     http.failure := None |} |}.

Definition POST (ns : list ceph.BucketNotification) : http.Request :=
  request "POST" (render_batch (batch ns)).

(** A request whose body breaks off with an error after [body]. *)
Definition broken (method : string) (body : string) (err : error) : http.Request :=
  {| http.Method := method;
     http.Body := {| http.content := list_byte_of_string body;
                     http.failure := Some err |} |}.

(** A platform that takes the result 202 Accepted for an
    acknowledgement, and a sink that answers every call with [answer]. *)
Definition sdk_lenient : Platform :=
  {| time_Parse := parse; url_Parse_String := reference;
     json_Unmarshal := decode;
     datacodec_Encode := encode;
     is_ResultACK := fun err => String.eqb (Error err) "202 Accepted" |}.

Definition answering (answer : Result) : cloudevents.Client unit :=
  fun c _ _ => (answer, c).

Definition settings : envConfig :=
  {| EnvConfig := {| env.Namespace := "storage"; env.Name := "ceph-bucket" |};
     Port := "8888" |}.

End Scenario.

(** ** Running the adapter *)

Section Facts.

Context `{Platform} {C : Type} `{cloudevents.Client C}.

Implicit Types (s : World C) (n : ceph.BucketNotification)
  (ca : cephReceiveAdapter).

Lemma bind_run {A B : Type} (m : M C A) (k : A -> M C B) s :
  bind m k s = k (m s).1 (m s).2.
Proof. unfold bind. by destruct (m s). Qed.

Lemma agree_refl s : agree s s.
Proof. by repeat split. Qed.

Lemma agree_sym s s' : agree s s' -> agree s' s.
Proof. intros (? & ? & ? & ?). by repeat split. Qed.

Lemma agree_trans s1 s2 s3 : agree s1 s2 -> agree s2 s3 -> agree s1 s3.
Proof.
  intros (? & ? & ? & ?) (? & ? & ? & ?).
  repeat split; etrans; eauto.
Qed.

Lemma logger_log_agree lvl format args s :
  agree s (logger_log lvl format args s).2.
Proof. by repeat split. Qed.

Lemma new_calls_app s s' l : calls s' = calls s ++ l -> new_calls s s' = l.
Proof. intros E. unfold new_calls. by rewrite E, drop_app_length. Qed.

Lemma new_calls_agree s1 s2 s1' s2' :
  agree s1 s2 -> agree s1' s2' -> new_calls s1 s1' = new_calls s2 s2'.
Proof.
  intros (_ & _ & _ & E) (_ & _ & _ & E'). unfold new_calls. by rewrite E, E'.
Qed.

Lemma eventTime_of_agree n s1 s2 :
  agree s1 s2 -> eventTime_of n s1 = eventTime_of n s2.
Proof.
  intros (_ & Hc & Ht & _). unfold eventTime_of, wallclock.
  by rewrite Hc, Ht.
Qed.

(** The event [postMessage] has built when it reaches [SetData], and
    what [SetData] makes of it. *)
Lemma SetData_built n (t : Time) :
  cloudevents.SetData
    (cloudevents.SetTime
       (cloudevents.SetSubject
          (cloudevents.SetType
             (cloudevents.SetSource
                (cloudevents.SetID cloudevents.NewEvent
                   (ceph.XAmzRequestID (ceph.ResponseElements n) +:+
                    ceph.XAmzID2 (ceph.ResponseElements n)))
                (ceph.EventSource n +:+ "." +:+ ceph.AwsRegion n +:+ "." +:+
                 ceph.Name (ceph.Bucket (ceph.S3 n))))
             ("com.amazonaws." +:+ ceph.EventName n))
          (ceph.Key (ceph.Object (ceph.S3 n))))
       t)
    cloudevents.ApplicationJSON n =
  match datacodec_Encode cloudevents.ApplicationJSON n with
  | Ok data => (envelope n t data, None)
  | Err err => (envelope n t [], Some err)
  end.
Proof.
  unfold cloudevents.SetData, envelope, id_of, source_of, type_of, subject_of,
    cloudevents.SetID, cloudevents.SetSource.
  case_bool_decide as Hid; [rewrite Hid|].
  all: destruct (url_Parse_String _).
  all: by destruct (datacodec_Encode cloudevents.ApplicationJSON n).
Qed.

Lemma mapped_envelope n (t : Time) data :
  datacodec_Encode cloudevents.ApplicationJSON n = Ok data ->
  mapped n (envelope n t data).
Proof. intros Henc. by repeat split. Qed.

(** [postMessage] always ends in one of its three outcomes. *)
Lemma postMessage_cases ca n s :
  postMessage_outcome ca n s (postMessage ca n s).
Proof.
  assert (Hp : exists t s0,
    t = eventTime_of n s /\ calls s0 = calls s /\ sink s0 = sink s /\
    match time_Parse RFC3339 (ceph.EventTime n) with
    | Ok eventTime => ret eventTime
    | Err err =>
        bind (logger_Infof "Failed to parse event timestamp, using local time. Error: %s"
                [ArgString (Error err)]) (fun _ => time_Now)
    end s = (t, s0)).
  { unfold eventTime_of.
    destruct (time_Parse RFC3339 (ceph.EventTime n)) as [t|perr].
    - by exists t, s.
    - eexists _, _. split_and!; [| | |reflexivity]; done. }
  destruct Hp as (t & s0 & Ht & Hcalls & Hsink & Hrun).
  unfold postMessage. rewrite bind_run, Hrun. cbn [fst snd].
  rewrite SetData_built.
  destruct (datacodec_Encode cloudevents.ApplicationJSON n) as [data|err] eqn:Henc.
  - unfold sendCloudEvent. rewrite !bind_run. cbn [fst snd].
    unfold client_call. cbn [sink logger_Debugf logger_log snd].
    destruct (cloudevents.client_Send (sink s0) _ _) as [res c'] eqn:Hsend.
    cbn [fst snd].
    match type of Hsend with
    | cloudevents.client_Send _ ?ctx ?e = _ =>
        pose (c := {| call_ctx := ctx; call_event := e; call_result := res |})
    end.
    assert (Hm : mapped n (call_event c)) by (by apply mapped_envelope).
    destruct (cloudevents.IsACK res) eqn:Hack; cbn [negb]; rewrite bind_run; cbn.
    + apply (outcome_acknowledged ca n s c); cbn; try done.
      * by rewrite <- Hsink.
      * by rewrite Hcalls.
    + destruct res as [err|]; [|done].
      apply (outcome_rejected ca n s c err); cbn; try done.
      * by rewrite <- Hsink.
      * by rewrite Hcalls.
  - cbn. by apply outcome_unencodable.
Qed.

(** Log lines do not influence [postMessage]. *)
Lemma postMessage_agree ca n s1 s2 :
  agree s1 s2 ->
  (postMessage ca n s1).1 = (postMessage ca n s2).1 /\
  agree (postMessage ca n s1).2 (postMessage ca n s2).2.
Proof.
  destruct s1 as [k1 c1 t1 l1 q1], s2 as [k2 c2 t2 l2 q2].
  intros (E1 & E2 & E3 & E4). cbn in E1, E2, E3, E4. subst k2 c2 t2 q2.
  unfold postMessage. rewrite !bind_run.
  destruct (time_Parse RFC3339 (ceph.EventTime n)) as [t|perr]; cbn [fst snd ret].
  all: rewrite !SetData_built.
  all: destruct (datacodec_Encode cloudevents.ApplicationJSON n) as [data|err];
    [|by cbn].
  all: unfold sendCloudEvent; rewrite !bind_run; unfold client_call;
    cbn -[cloudevents.client_Send cloudevents.IsACK envelope].
  all: match goal with
       | |- context [cloudevents.client_Send ?k ?ctx ?e] =>
           destruct (cloudevents.client_Send k ctx e) as [res k']
       end; cbn -[cloudevents.IsACK].
  all: destruct (cloudevents.IsACK res); by cbn.
Qed.

Lemma postHandler_range_agree ca records s1 s2 :
  agree s1 s2 ->
  (postHandler_range ca records s1).1 = (postHandler_range ca records s2).1 /\
  agree (postHandler_range ca records s1).2 (postHandler_range ca records s2).2.
Proof.
  revert s1 s2. induction records as [|n records IH]; intros s1 s2 Hs; [done|].
  cbn [postHandler_range]. rewrite !bind_run. cbn [fst].
  set (s1' := (logger_Debugf _ _ s1).2). set (s2' := (logger_Debugf _ _ s2).2).
  assert (Hs' : agree s1' s2').
  { eapply agree_trans; [apply agree_sym, logger_log_agree|].
    eapply agree_trans; [exact Hs|apply logger_log_agree]. }
  destruct (postMessage_agree ca n s1' s2' Hs') as [E Ha]. rewrite E.
  destruct ((postMessage ca n s2').1); [done|]. by apply IH.
Qed.

(** The loop over [pre ++ rest], when no record of [pre] fails, goes on
    with [rest] where the loop over [pre] ends. *)
Lemma postHandler_range_app ca pre rest s :
  (postHandler_range ca pre s).1 = None ->
  postHandler_range ca (pre ++ rest) s =
  postHandler_range ca rest (postHandler_range ca pre s).2.
Proof.
  revert s. induction pre as [|n pre IH]; intros s; [done|].
  cbn [postHandler_range app]. rewrite !bind_run.
  destruct ((postMessage ca n _).1); [done|]. apply IH.
Qed.

(** One turn of the loop: the record is posted in a world that agrees
    with the one the turn starts in. *)
Lemma postHandler_range_cons ca n records s :
  exists s0, agree s s0 /\
    postHandler_range ca (n :: records) s =
    match (postMessage ca n s0).1 with
    | Some err => (Some err, (postMessage ca n s0).2)
    | None => postHandler_range ca records (postMessage ca n s0).2
    end.
Proof.
  exists (logger_Debugf "Received Ceph bucket notification: %+v"
            [ArgNotification n] s).2.
  split; [apply logger_log_agree|].
  cbn [postHandler_range]. rewrite !bind_run. cbn [fst].
  by destruct ((postMessage ca n _).1).
Qed.

(** The sink is only ever called more. *)
Lemma postMessage_calls ca n s :
  exists l, calls (postMessage ca n s).2 = calls s ++ l.
Proof.
  destruct (postMessage_cases ca n s) as [err s' _ E _|c s' _ _ _ _ E _|c err s' _ _ _ _ E _ _];
    cbn [snd]; rewrite E; [exists []; by rewrite app_nil_r|by exists [c]..].
Qed.

Lemma postHandler_range_calls ca records s :
  exists l, calls (postHandler_range ca records s).2 = calls s ++ l.
Proof.
  revert s. induction records as [|n records IH]; intros s.
  { exists []. cbn. by rewrite app_nil_r. }
  destruct (postHandler_range_cons ca n records s) as (s0 & (_ & _ & _ & Hs) & ->).
  destruct (postMessage_calls ca n s0) as [l1 E1].
  destruct ((postMessage ca n s0).1).
  - exists l1. cbn [snd]. by rewrite Hs.
  - destruct (IH (postMessage ca n s0).2) as [l2 E2].
    exists (l1 ++ l2). by rewrite E2, E1, Hs, app_assoc.
Qed.

Lemma new_calls_trans s1 s2 s3 l1 l2 :
  calls s2 = calls s1 ++ l1 -> calls s3 = calls s2 ++ l2 ->
  new_calls s1 s3 = l1 ++ l2.
Proof.
  intros E1 E2. apply new_calls_app. by rewrite E2, E1, app_assoc.
Qed.

(** The loop ends without an error exactly when the sink was called
    once per record, in order, each call acknowledged. *)
Lemma postHandler_range_success_iff ca records s :
  (postHandler_range ca records s).1 = None <->
  Forall2 delivered records (new_calls s (postHandler_range ca records s).2).
Proof.
  revert s. induction records as [|n records IH]; intros s.
  { cbn. unfold new_calls. rewrite drop_all. split; [constructor|done]. }
  destruct (postHandler_range_cons ca n records s) as (s0 & (_ & _ & _ & Hs) & ->).
  pose proof (postMessage_cases ca n s0) as Hcases.
  destruct (postMessage ca n s0) as [r s1]. cbn [fst snd].
  inversion Hcases as [err s' Henc E _|c s' Hm _ _ _ E Hack|c err s' Hm _ _ _ E Hres Hack];
    subst.
  - cbn [fst snd]. rewrite (new_calls_app s s1 []).
    + split; [done|]. intros Hall. inversion Hall.
    + by rewrite E, Hs, app_nil_r.
  - destruct (postHandler_range_calls ca records s1) as [l El].
    assert (E1 : calls s1 = calls s ++ [c]) by (by rewrite E, Hs).
    rewrite (new_calls_trans s s1 _ [c] l E1 El).
    rewrite IH, (new_calls_app s1 _ l El). cbn [app]. split.
    + intros Hall. by constructor.
    + intros Hall. by inversion Hall.
  - cbn [fst snd]. rewrite (new_calls_app s s1 [c]) by (by rewrite E, Hs).
    split; [done|]. intros Hall. inversion Hall as [|? ? ? ? [_ Hd] _]; subst.
    rewrite Hres in Hd. congruence.
Qed.

(** ** The response writer *)

Lemma http_Error_status w msg code :
  http.status w = None -> http.status (http.Error w msg code) = Some code.
Proof. destruct w as [h [st|] b]; [done|]. by intros _. Qed.

Lemma http_Error_body w msg code :
  http.body (http.Error w msg code) = http.body w +:+ msg +:+ http.newline.
Proof. by destruct w as [h [st|] b]. Qed.

Lemma http_Error_Allow w msg code :
  http.header (http.Error w msg code) !! "Allow" = http.header w !! "Allow".
Proof.
  destruct w as [h [st|] b]; unfold http.Error, http.Write, http.WriteHeader;
    cbn [http.header http.status http.body http.Header_Set http.Header_Del];
    by rewrite !lookup_insert_ne, lookup_delete_ne.
Qed.

(** ** The handler *)

(** A request that is not a POST. *)
Lemma postHandler_other_method ca w (r : http.Request) s :
  http.Method r <> "POST" ->
  (postHandler ca w r s).1 =
    http.Error (http.Header_Set "Allow" "POST" w) "405 Method Not Allowed"
      http.StatusBadRequest /\
  agree s (postHandler ca w r s).2.
Proof.
  intros Hm. unfold postHandler.
  rewrite bool_decide_eq_false_2 by done. cbn [negb].
  rewrite bind_run. split; [done|apply logger_log_agree].
Qed.

(** A POST whose body cannot be read to its end. *)
Lemma postHandler_unreadable ca w (r : http.Request) s err :
  http.Method r = "POST" ->
  http.failure (http.Body r) = Some err ->
  (postHandler ca w r s).1 =
    http.Error (http.Header_Set "Allow" "POST" w) (Error err)
      http.StatusBadRequest /\
  agree s (postHandler ca w r s).2.
Proof.
  intros Hm Hr. unfold postHandler, ioutil_ReadAll.
  rewrite bool_decide_eq_true_2 by done. cbn [negb]. rewrite Hr.
  rewrite bind_run. split; [done|apply logger_log_agree].
Qed.

(** A POST whose body is read but is not a batch. *)
Lemma postHandler_undecodable ca w (r : http.Request) s err :
  http.Method r = "POST" ->
  http.failure (http.Body r) = None ->
  json_Unmarshal (http.content (http.Body r)) = Err err ->
  (postHandler ca w r s).1 =
    http.Error (http.Header_Set "Allow" "POST" w) (Error err)
      http.StatusBadRequest /\
  agree s (postHandler ca w r s).2.
Proof.
  intros Hm Hr Hd. unfold postHandler, ioutil_ReadAll.
  rewrite bool_decide_eq_true_2 by done. cbn [negb]. rewrite Hr, Hd.
  rewrite bind_run. split; [done|apply logger_log_agree].
Qed.

(** A POST whose body is a batch: the response is decided by the loop
    over the records, which runs as it would from [s]. *)
Lemma postHandler_decoded ca w (r : http.Request) s ns :
  http.Method r = "POST" ->
  http.failure (http.Body r) = None ->
  json_Unmarshal (http.content (http.Body r)) = Ok ns ->
  (postHandler ca w r s).1 =
    match (postHandler_range ca (ceph.Records ns) s).1 with
    | Some err =>
        http.Error (http.Header_Set "Allow" "POST" w) (Error err)
          http.StatusBadRequest
    | None => http.Header_Set "Allow" "POST" w
    end /\
  agree (postHandler ca w r s).2 (postHandler_range ca (ceph.Records ns) s).2.
Proof.
  intros Hm Hr Hd. unfold postHandler, ioutil_ReadAll.
  rewrite bool_decide_eq_true_2 by done. cbn [negb]. rewrite Hr, Hd.
  rewrite !bind_run. cbn [fst].
  set (s0 := (logger_Debugf _ _ s).2).
  destruct (postHandler_range_agree ca (ceph.Records ns) s s0) as [E Ha];
    [apply logger_log_agree|].
  rewrite E. split.
  - by destruct ((postHandler_range ca (ceph.Records ns) s0).1).
  - apply agree_sym. by destruct ((postHandler_range ca (ceph.Records ns) s0).1).
Qed.

Lemma ioutil_ReadAll_inv (r : http.Request) body err :
  ioutil_ReadAll (http.Body r) = (body, err) ->
  http.content (http.Body r) = body /\ http.failure (http.Body r) = err.
Proof. unfold ioutil_ReadAll. intros [= <- <-]. done. Qed.

Lemma agree_new_calls_nil s s' : agree s s' -> new_calls s s' = [].
Proof. intros (_ & _ & _ & E). apply new_calls_app. by rewrite E, app_nil_r. Qed.

Lemma append_empty (a b : string) :
  a +:+ b = EmptyString -> a = EmptyString /\ b = EmptyString.
Proof. destruct a; cbn; [done|discriminate]. Qed.

(** A record that can be encoded is handed to the sink, once. *)
Lemma postMessage_encoded ca n s data :
  datacodec_Encode cloudevents.ApplicationJSON n = Ok data ->
  exists c, new_calls s (postMessage ca n s).2 = [c] /\
    mapped n (call_event c) /\ cloudevents.Data (call_event c) = data.
Proof.
  intros Henc. pose proof (postMessage_cases ca n s) as Hcases.
  destruct (postMessage ca n s) as [res s1]. cbn [snd].
  inversion Hcases as [err s' Herr E _|c s' Hm _ _ _ E _|c err s' Hm _ _ _ E _ _];
    subst; [congruence|exists c..].
  all: rewrite (new_calls_app _ _ [c] E); split_and!; try done.
  all: destruct Hm as (_ & _ & _ & _ & Hdata); congruence.
Qed.

(** How many times [postMessage] calls the sink. *)
Lemma postMessage_calls_length ca n s :
  exists l, calls (postMessage ca n s).2 = calls s ++ l /\
    length l =
      match datacodec_Encode cloudevents.ApplicationJSON n with
      | Ok _ => 1%nat
      | Err _ => 0%nat
      end.
Proof.
  pose proof (postMessage_cases ca n s) as Hcases.
  destruct (postMessage ca n s) as [r s1]. cbn [snd].
  inversion Hcases as [err s' Henc E _|c s' Hm _ _ _ E _|c err s' Hm _ _ _ E _ _];
    subst.
  - exists []. by rewrite Henc, E, app_nil_r.
  - exists [c]. destruct Hm as (_ & _ & _ & _ & ->). done.
  - exists [c]. destruct Hm as (_ & _ & _ & _ & ->). done.
Qed.

(** A loop that ends without an error has called the sink once per
    record. *)
Lemma postHandler_range_success_calls ca records s :
  (postHandler_range ca records s).1 = None ->
  exists l, calls (postHandler_range ca records s).2 = calls s ++ l /\
    Forall2 delivered records l.
Proof.
  intros Hok. destruct (postHandler_range_calls ca records s) as [l El].
  exists l. split; [done|].
  apply postHandler_range_success_iff in Hok.
  by rewrite (new_calls_app _ _ l El) in Hok.
Qed.

(** Fail-fast: when the records of [pre] succeed and [n] fails, the
    handler answers with the error of [n] and leaves the world as
    [postMessage] for [n] left it, whatever follows [n] in the batch. *)
Lemma postHandler_stops ca w (r : http.Request) s pre n post err :
  http.Method r = "POST" ->
  http.failure (http.Body r) = None ->
  json_Unmarshal (http.content (http.Body r)) =
    Ok {| ceph.Records := pre ++ n :: post |} ->
  (postHandler_range ca pre s).1 = None ->
  (postMessage ca n (postHandler_range ca pre s).2).1 = Some err ->
  (postHandler ca w r s).1 =
    http.Error (http.Header_Set "Allow" "POST" w) (Error err)
      http.StatusBadRequest /\
  agree (postHandler ca w r s).2
    (postMessage ca n (postHandler_range ca pre s).2).2.
Proof.
  intros Hm Hr Hd Hpre Hn.
  destruct (postHandler_decoded ca w r s _ Hm Hr Hd) as [Hw Hs].
  cbn [ceph.Records] in Hw, Hs.
  rewrite (postHandler_range_app ca pre (n :: post) s Hpre) in Hw, Hs.
  set (s1 := (postHandler_range ca pre s).2) in *.
  destruct (postHandler_range_cons ca n post s1) as (s0 & Ha & Hrun).
  destruct (postMessage_agree ca n s1 s0 Ha) as [E Ha'].
  rewrite Hrun, <- E, Hn in Hw, Hs. cbn [fst snd] in Hw, Hs.
  split; [done|]. eapply agree_trans; [exact Hs|by apply agree_sym].
Qed.

End Facts.

(** ** Properties of the adapter *)

Section Properties.

Context `{Platform} {C : Type} `{cloudevents.Client C}.

Implicit Types (s : World C) (n : ceph.BucketNotification)
  (ca : cephReceiveAdapter) (w : http.ResponseWriter) (r : http.Request).

(** C1, amended. For every record that can be encoded, [postMessage]
    hands the sink exactly one envelope, whose id is the record's
    x-amz-request-id followed by its x-amz-id-2, without the white space
    around them; whose source is the text of the URL parsed from
    eventSource.awsRegion.bucketName, and empty if that does not parse;
    whose type is the prefix "com.amazonaws." followed by the event
    name, without the white space around them; and whose subject is the
    object key without the white space around it. *)
Theorem postMessage_envelope ca n s data :
  datacodec_Encode cloudevents.ApplicationJSON n = Ok data ->
  exists c, new_calls s (postMessage ca n s).2 = [c] /\
    cloudevents.ID (call_event c) =
      strings_TrimSpace
        (ceph.XAmzRequestID (ceph.ResponseElements n) +:+
         ceph.XAmzID2 (ceph.ResponseElements n)) /\
    cloudevents.Source (call_event c) =
      match
        url_Parse_String
          (ceph.EventSource n +:+ "." +:+ ceph.AwsRegion n +:+ "." +:+
           ceph.Name (ceph.Bucket (ceph.S3 n)))
      with
      | Ok source => source
      | Err _ => EmptyString
      end /\
    cloudevents.EventType (call_event c) =
      strings_TrimSpace ("com.amazonaws." +:+ ceph.EventName n) /\
    cloudevents.Subject (call_event c) =
      strings_TrimSpace (ceph.Key (ceph.Object (ceph.S3 n))) /\
    cloudevents.Data (call_event c) = data.
Proof.
  intros Henc.
  destruct (postMessage_encoded ca n s data Henc)
    as (c & Hc & (Hid & Hsrc & Hty & Hsub & _) & Hdata).
  by exists c.
Qed.

(** When the records before record k are all posted without an error
    and record k fails with [err], the handler answers 400 with the text
    of [err], the world is left as the posting of record k left it (up
    to log lines), whatever follows record k, and the sink has been
    called k times if record k could be encoded and k - 1 times if it
    could not. Here k is [S (length pre)]. *)
Lemma postHandler_first_failure_calls ca w r s body pre n post err :
  http.Method r = "POST" ->
  ioutil_ReadAll (http.Body r) = (body, None) ->
  json_Unmarshal body = Ok {| ceph.Records := pre ++ n :: post |} ->
  http.status w = None ->
  (postHandler_range ca pre s).1 = None ->
  (postMessage ca n (postHandler_range ca pre s).2).1 = Some err ->
  let w' := (postHandler ca w r s).1 in
  let s' := (postHandler ca w r s).2 in
  http.status w' = Some http.StatusBadRequest /\
  http.body w' = http.body w +:+ Error err +:+ http.newline /\
  agree s' (postMessage ca n (postHandler_range ca pre s).2).2 /\
  length (new_calls s s') =
    match datacodec_Encode cloudevents.ApplicationJSON n with
    | Ok _ => S (length pre)
    | Err _ => length pre
    end.
Proof.
  intros Hm Hread Hd Hw Hpre Hn w' s'.
  apply ioutil_ReadAll_inv in Hread as [<- Hr].
  destruct (postHandler_stops ca w r s pre n post err Hm Hr Hd Hpre Hn)
    as [Ew Hs].
  subst w' s'. rewrite Ew. split_and!.
  - by apply http_Error_status.
  - by rewrite http_Error_body.
  - done.
  - destruct (postHandler_range_success_calls ca pre s Hpre) as (l1 & E1 & Hl1).
    destruct (postMessage_calls_length ca n (postHandler_range ca pre s).2)
      as (l2 & E2 & Hl2).
    destruct Hs as (_ & _ & _ & Ecalls).
    rewrite (new_calls_app s _ (l1 ++ l2)).
    + rewrite length_app, Hl2, <- (Forall2_length _ _ _ Hl1).
      destruct (datacodec_Encode cloudevents.ApplicationJSON n); lia.
    + by rewrite Ecalls, E2, E1, app_assoc.
Qed.

(** C2. The encoder behind [SetData] is [json.Marshal], which does not
    fail on a record of strings; with an encoder that does not fail:
    when the records before record k are all posted without an error
    and record k fails with [err], the handler answers 400 with the text
    of [err], the world is left as the posting of record k left it (up
    to log lines), whatever follows record k, and the sink has been
    called exactly k times. Here k is [S (length pre)]. *)
Theorem postHandler_first_failure ca w r s body pre n post err :
  (forall n', exists data,
     datacodec_Encode cloudevents.ApplicationJSON n' = Ok data) ->
  http.Method r = "POST" ->
  ioutil_ReadAll (http.Body r) = (body, None) ->
  json_Unmarshal body = Ok {| ceph.Records := pre ++ n :: post |} ->
  http.status w = None ->
  (postHandler_range ca pre s).1 = None ->
  (postMessage ca n (postHandler_range ca pre s).2).1 = Some err ->
  let w' := (postHandler ca w r s).1 in
  let s' := (postHandler ca w r s).2 in
  http.status w' = Some http.StatusBadRequest /\
  http.body w' = http.body w +:+ Error err +:+ http.newline /\
  agree s' (postMessage ca n (postHandler_range ca pre s).2).2 /\
  length (new_calls s s') = S (length pre).
Proof.
  intros Htotal Hm Hread Hd Hw Hpre Hn.
  destruct (postHandler_first_failure_calls ca w r s body pre n post err
              Hm Hread Hd Hw Hpre Hn) as (Hst & Hbody & Hs & Hlen).
  destruct (Htotal n) as [data Henc]. rewrite Henc in Hlen. done.
Qed.

(** C3. For a POST whose body decodes to a batch, the loop over the
    records ends without an error if and only if the sink was called
    once per record, in the order of the records, each call carrying
    the envelope of its record and each acknowledged; and if and only
    if the handler writes no status (so the client gets 200) and
    nothing to the body. *)
Theorem postHandler_success_iff ca w r s body ns :
  http.Method r = "POST" ->
  ioutil_ReadAll (http.Body r) = (body, None) ->
  json_Unmarshal body = Ok ns ->
  http.status w = None ->
  let w' := (postHandler ca w r s).1 in
  let s' := (postHandler ca w r s).2 in
  ((postHandler_range ca (ceph.Records ns) s).1 = None <->
   Forall2 delivered (ceph.Records ns) (new_calls s s')) /\
  ((postHandler_range ca (ceph.Records ns) s).1 = None <->
   http.statusCode w' = http.StatusOK /\ http.body w' = http.body w) /\
  ((postHandler_range ca (ceph.Records ns) s).1 = None ->
   length (new_calls s s') = length (ceph.Records ns)).
Proof.
  intros Hm Hread Hd Hw w' s'.
  apply ioutil_ReadAll_inv in Hread as [<- Hr].
  destruct (postHandler_decoded ca w r s ns Hm Hr Hd) as [Ew Hs].
  assert (En : new_calls s s' =
               new_calls s (postHandler_range ca (ceph.Records ns) s).2)
    by (apply new_calls_agree; [apply agree_refl|exact Hs]).
  rewrite En. split_and!.
  - apply postHandler_range_success_iff.
  - subst w'. rewrite Ew.
    destruct ((postHandler_range ca (ceph.Records ns) s).1) as [err|].
    + split; [done|]. intros [Hst _]. unfold http.statusCode in Hst.
      by rewrite (http_Error_status _ _ http.StatusBadRequest) in Hst.
    + split; [|done]. intros _. unfold http.statusCode. cbn. by rewrite Hw.
  - intros Hok. apply postHandler_range_success_iff in Hok.
    by rewrite (Forall2_length _ _ _ Hok).
Qed.

(** C4. For every record whose eventTime does not parse, [postMessage]
    goes on: if the record can be encoded, the sink is called once with
    the envelope of the record, whose time is the reading of the wall
    clock, and what [postMessage] returns is decided by the result of
    the sink alone; if the record cannot be encoded, the error
    returned is the encoding error. The parse error is never what is
    returned. *)
Theorem postMessage_unparsable_time ca n s perr :
  time_Parse RFC3339 (ceph.EventTime n) = Err perr ->
  match datacodec_Encode cloudevents.ApplicationJSON n with
  | Ok data =>
      exists c, new_calls s (postMessage ca n s).2 = [c] /\
        mapped n (call_event c) /\
        cloudevents.EventTime (call_event c) = wallclock s /\
        (postMessage ca n s).1 =
          if cloudevents.IsACK (call_result c) then None else call_result c
  | Err err =>
      new_calls s (postMessage ca n s).2 = [] /\
      (postMessage ca n s).1 =
        Some (fmt_Errorf_w "failed to marshal event data: " err)
  end.
Proof.
  intros Hparse. pose proof (postMessage_cases ca n s) as Hcases.
  assert (Ht : eventTime_of n s = wallclock s)
    by (unfold eventTime_of; by rewrite Hparse).
  destruct (postMessage ca n s) as [res s1]. cbn [fst snd].
  inversion Hcases
    as [err s' Herr E _|c s' Hm Htime _ _ E Hack|c err s' Hm Htime _ _ E Hres Hack];
    subst.
  - rewrite Herr. split; [|done]. apply new_calls_app. by rewrite E, app_nil_r.
  - pose proof Hm as (_ & _ & _ & _ & ->). exists c.
    rewrite (new_calls_app _ _ [c] E), Hack, Htime. done.
  - pose proof Hm as (_ & _ & _ & _ & ->). exists c.
    rewrite (new_calls_app _ _ [c] E), Hres, Hack, Htime. done.
Qed.

(** C6. For a POST whose body is read but does not decode to a batch,
    the handler answers 400 with the text of the decoding error, the
    sink is not called, and the world is left as it was up to log
    lines: no record is posted, the clock is not read. *)
Theorem postHandler_malformed_body ca w r s body err :
  http.Method r = "POST" ->
  ioutil_ReadAll (http.Body r) = (body, None) ->
  json_Unmarshal body = Err err ->
  http.status w = None ->
  let w' := (postHandler ca w r s).1 in
  let s' := (postHandler ca w r s).2 in
  http.status w' = Some http.StatusBadRequest /\
  http.body w' = http.body w +:+ Error err +:+ http.newline /\
  new_calls s s' = [] /\
  agree s s'.
Proof.
  intros Hm Hread Hd Hw w' s'.
  apply ioutil_ReadAll_inv in Hread as [<- Hr].
  destruct (postHandler_undecodable ca w r s err Hm Hr Hd) as [Ew Hs].
  subst w' s'. rewrite Ew. split_and!.
  - by apply http_Error_status.
  - by rewrite http_Error_body.
  - by apply agree_new_calls_nil.
  - done.
Qed.

(** C7. When the records before a record [n] are posted without an
    error and [n] cannot be encoded, [postMessage] for [n] returns the
    error "failed to marshal event data: ..." wrapping the encoding
    error and does not call the sink, and the handler answers 400 with
    the text of that error; the sink has been called for the records
    before [n] only, and is left in the state they left it in. *)
Theorem postHandler_unencodable_record ca w r s body pre n post err :
  http.Method r = "POST" ->
  ioutil_ReadAll (http.Body r) = (body, None) ->
  json_Unmarshal body = Ok {| ceph.Records := pre ++ n :: post |} ->
  http.status w = None ->
  (postHandler_range ca pre s).1 = None ->
  datacodec_Encode cloudevents.ApplicationJSON n = Err err ->
  let s1 := (postHandler_range ca pre s).2 in
  let w' := (postHandler ca w r s).1 in
  let s' := (postHandler ca w r s).2 in
  (postMessage ca n s1).1 =
    Some (fmt_Errorf_w "failed to marshal event data: " err) /\
  new_calls s1 (postMessage ca n s1).2 = [] /\
  http.status w' = Some http.StatusBadRequest /\
  http.body w' =
    http.body w +:+ "failed to marshal event data: " +:+ Error err +:+
    http.newline /\
  new_calls s s' = new_calls s s1 /\
  sink s' = sink s1.
Proof.
  intros Hm Hread Hd Hw Hpre Henc s1 w' s'.
  apply ioutil_ReadAll_inv in Hread as [<- Hr].
  pose proof (postMessage_cases ca n s1) as Hcases.
  destruct (postMessage ca n s1) as [res s2] eqn:Hrun.
  inversion Hcases as [e s2' Herr E Esink|c s2' Hm' _ _ _ E _|c e s2' Hm' _ _ _ E _ _];
    subst res s2'.
  2,3: destruct Hm' as (_ & _ & _ & _ & Hdata); congruence.
  assert (e = err) as -> by congruence.
  assert (Hn : (postMessage ca n s1).1 =
               Some (fmt_Errorf_w "failed to marshal event data: " err))
    by (by rewrite Hrun).
  destruct (postHandler_stops ca w r s pre n post _ Hm Hr Hd Hpre Hn)
    as [Ew Hs].
  fold s1 in Hs. rewrite Hrun in Hs. cbn [snd] in Hs.
  destruct Hs as (Hsink & _ & _ & Hcalls).
  subst w' s'. rewrite Ew. cbn [fst snd]. split_and!.
  - done.
  - apply new_calls_app. by rewrite E, app_nil_r.
  - by apply http_Error_status.
  - by rewrite http_Error_body.
  - unfold new_calls. by rewrite Hcalls, E.
  - by rewrite Hsink, Esink.
Qed.

(** C8, amended. For every record that can be encoded, the id of the
    envelope handed to the sink is non-empty exactly when the two
    correlation identifiers, joined, are something else than white
    space: when trimming them leaves something. *)
Theorem postMessage_id_nonempty ca n s data :
  datacodec_Encode cloudevents.ApplicationJSON n = Ok data ->
  exists c, new_calls s (postMessage ca n s).2 = [c] /\
    (cloudevents.ID (call_event c) <> EmptyString <->
     strings_TrimSpace
       (ceph.XAmzRequestID (ceph.ResponseElements n) +:+
        ceph.XAmzID2 (ceph.ResponseElements n)) <> EmptyString).
Proof.
  intros Henc.
  destruct (postMessage_encoded ca n s data Henc) as (c & Hc & (Hid & _) & _).
  exists c. split; [done|]. by rewrite Hid.
Qed.

(** C9. Whatever the request, the response of the handler carries the
    header Allow with the one value POST. *)
Theorem postHandler_always_Allow ca w r s :
  http.header (postHandler ca w r s).1 !! "Allow" = Some ["POST"].
Proof.
  assert (Hset : http.header (http.Header_Set "Allow" "POST" w) !! "Allow"
                 = Some ["POST"]) by apply lookup_insert_eq.
  destruct (decide (http.Method r = "POST")) as [Hm|Hm].
  - destruct (http.failure (http.Body r)) as [err|] eqn:Hr.
    + destruct (postHandler_unreadable ca w r s err Hm Hr) as [-> _].
      by rewrite http_Error_Allow.
    + destruct (json_Unmarshal (http.content (http.Body r))) as [ns|err] eqn:Hd.
      * destruct (postHandler_decoded ca w r s ns Hm Hr Hd) as [-> _].
        destruct ((postHandler_range ca (ceph.Records ns) s).1); [|done].
        by rewrite http_Error_Allow.
      * destruct (postHandler_undecodable ca w r s err Hm Hr Hd) as [-> _].
        by rewrite http_Error_Allow.
  - destruct (postHandler_other_method ca w r s Hm) as [-> _].
    by rewrite http_Error_Allow.
Qed.

(** C10. For a POST whose body decodes to a batch without records, the
    handler writes no status (the client gets 200) and nothing to the
    body, the sink is not called, and the world is left as it was up
    to log lines. *)
Theorem postHandler_empty_batch ca w r s body ns :
  http.Method r = "POST" ->
  ioutil_ReadAll (http.Body r) = (body, None) ->
  json_Unmarshal body = Ok ns ->
  ceph.Records ns = [] ->
  http.status w = None ->
  let w' := (postHandler ca w r s).1 in
  let s' := (postHandler ca w r s).2 in
  http.statusCode w' = http.StatusOK /\
  http.body w' = http.body w /\
  new_calls s s' = [] /\
  agree s s'.
Proof.
  intros Hm Hread Hd Hempty Hw w' s'.
  apply ioutil_ReadAll_inv in Hread as [<- Hr].
  destruct (postHandler_decoded ca w r s ns Hm Hr Hd) as [Ew Hs].
  rewrite Hempty in Ew, Hs. cbn in Ew, Hs. apply agree_sym in Hs.
  subst w' s'. rewrite Ew. split_and!.
  - unfold http.statusCode. cbn. by rewrite Hw.
  - done.
  - by apply agree_new_calls_nil.
  - done.
Qed.

End Properties.

(** ** The properties in the concrete setting *)

(** C5. A GET request is answered with the status 400, not 405, although
    the body says "405 Method Not Allowed"; it carries the header
    Allow: POST, and the sink is not called. *)
Theorem postHandler_GET_answers_400 :
  let s := Scenario.world tt in
  let p := @postHandler Scenario.sdk unit Scenario.accepting Scenario.ca
             http.NewRecorder (Scenario.request "GET" EmptyString) s in
  http.statusCode p.1 = http.StatusBadRequest /\
  http.statusCode p.1 <> http.StatusMethodNotAllowed /\
  http.body p.1 = "405 Method Not Allowed" +:+ http.newline /\
  http.header p.1 !! "Allow" = Some ["POST"] /\
  new_calls s p.2 = [].
Proof. vm_compute. by split_and!. Qed.

(** C1 as stated fails: a record whose correlation identifiers carry
    white space around them is handed to the sink in an envelope whose
    id is not the two identifiers joined, but the two joined and
    trimmed. *)
Lemma postMessage_envelope_counterexample :
  let s := Scenario.world tt in
  let n := Scenario.put_padded in
  exists c,
    new_calls s (@postMessage Scenario.sdk unit Scenario.accepting Scenario.ca
                   n s).2 = [c] /\
    cloudevents.ID (call_event c) = "abc123" /\
    cloudevents.ID (call_event c) <>
      ceph.XAmzRequestID (ceph.ResponseElements n) +:+
      ceph.XAmzID2 (ceph.ResponseElements n).
Proof. eexists. split_and!; [vm_compute; reflexivity|reflexivity|discriminate]. Qed.

(** C8 as stated fails: a record whose two correlation identifiers are
    empty is handed to the sink in an envelope whose id is empty. *)
Lemma postMessage_id_empty_counterexample :
  let s := Scenario.world tt in
  exists c,
    new_calls s (@postMessage Scenario.sdk unit Scenario.accepting Scenario.ca
                   Scenario.put_anonymous s).2 = [c] /\
    cloudevents.ID (call_event c) = EmptyString.
Proof. eexists. split; vm_compute; reflexivity. Qed.

(** [postMessage_envelope] on the record ObjectCreated:Put of file.txt in
    mybucket, with the correlation identifiers abc and 123. *)
Lemma postMessage_envelope_witness :
  let s := Scenario.world tt in
  @datacodec_Encode Scenario.sdk cloudevents.ApplicationJSON Scenario.put =
    Ok (list_byte_of_string (Scenario.render Scenario.put)) /\
  exists c,
    new_calls s (@postMessage Scenario.sdk unit Scenario.accepting Scenario.ca
                   Scenario.put s).2 = [c] /\
    cloudevents.ID (call_event c) = "abc123" /\
    cloudevents.Source (call_event c) = "ceph:s3.us-east-1.mybucket" /\
    cloudevents.EventType (call_event c) = "com.amazonaws.ObjectCreated:Put" /\
    cloudevents.Subject (call_event c) = "file.txt".
Proof.
  intros s. split; [reflexivity|].
  destruct (@postMessage_envelope Scenario.sdk unit Scenario.accepting
              Scenario.ca Scenario.put s _ eq_refl)
    as (c & Hc & Hid & Hsrc & Hty & Hsub & _).
  exists c. split_and!; assumption.
Defined.

(** [postHandler_first_failure] on a batch of three records and a sink
    that rejects its second call: two calls, and the answer 400. *)
Lemma postHandler_first_failure_witness :
  let P := Scenario.sdk in
  let K := Scenario.rejecting 1 in
  let r := Scenario.POST [Scenario.put; Scenario.put_undated; Scenario.put] in
  let s := Scenario.world 0%nat in
  let p := @postHandler P nat K Scenario.ca http.NewRecorder r s in
  (forall n, exists data,
     @datacodec_Encode P cloudevents.ApplicationJSON n = Ok data) /\
  (@postHandler_range P nat K Scenario.ca [Scenario.put] s).1 = None /\
  (@postMessage P nat K Scenario.ca Scenario.put_undated
     (@postHandler_range P nat K Scenario.ca [Scenario.put] s).2).1 =
    Some (errorString "503 Service Unavailable") /\
  http.status p.1 = Some 400 /\
  http.body p.1 = "503 Service Unavailable" +:+ http.newline /\
  length (new_calls s p.2) = 2%nat.
Proof.
  intros P K r s p.
  assert (H0 : forall n, exists data,
            @datacodec_Encode P cloudevents.ApplicationJSON n = Ok data)
    by (intros n; eexists; reflexivity).
  assert (H1 : (@postHandler_range P nat K Scenario.ca [Scenario.put] s).1 = None)
    by (vm_compute; reflexivity).
  assert (H2 : (@postMessage P nat K Scenario.ca Scenario.put_undated
                  (@postHandler_range P nat K Scenario.ca [Scenario.put] s).2).1 =
               Some (errorString "503 Service Unavailable"))
    by (vm_compute; reflexivity).
  destruct (@postHandler_first_failure P nat K Scenario.ca http.NewRecorder r s
              (http.content (http.Body r)) [Scenario.put] Scenario.put_undated
              [Scenario.put] (errorString "503 Service Unavailable"))
    as (Hst & Hbody & _ & Hlen);
    [exact H0|reflexivity|reflexivity|vm_compute; reflexivity|reflexivity
    |exact H1|exact H2|].
  split_and!; [exact H0|exact H1|exact H2|exact Hst|exact Hbody|exact Hlen].
Defined.

(** [postHandler_success_iff] on a batch of two records and a sink that
    accepts: two calls in order, and an empty answer 200. *)
Lemma postHandler_success_iff_witness :
  let P := Scenario.sdk in
  let r := Scenario.POST [Scenario.put; Scenario.put_undated] in
  let s := Scenario.world tt in
  let p := @postHandler P unit Scenario.accepting Scenario.ca http.NewRecorder r s in
  @json_Unmarshal P (http.content (http.Body r)) =
    Ok (Scenario.batch [Scenario.put; Scenario.put_undated]) /\
  http.statusCode p.1 = 200 /\ http.body p.1 = EmptyString /\
  Forall2 (@delivered P) [Scenario.put; Scenario.put_undated] (new_calls s p.2) /\
  length (new_calls s p.2) = 2%nat.
Proof.
  intros P r s p.
  assert (Hd : @json_Unmarshal P (http.content (http.Body r)) =
               Ok (Scenario.batch [Scenario.put; Scenario.put_undated]))
    by (vm_compute; reflexivity).
  destruct (@postHandler_success_iff P unit Scenario.accepting Scenario.ca
              http.NewRecorder r s (http.content (http.Body r))
              (Scenario.batch [Scenario.put; Scenario.put_undated]))
    as (Hiff & Hresp & Hlen);
    [reflexivity|reflexivity|exact Hd|reflexivity|].
  assert (Hok : (@postHandler_range P unit Scenario.accepting Scenario.ca
                   [Scenario.put; Scenario.put_undated] s).1 = None)
    by (vm_compute; reflexivity).
  split_and!.
  - exact Hd.
  - exact (proj1 (proj1 Hresp Hok)).
  - exact (proj2 (proj1 Hresp Hok)).
  - exact (proj1 Hiff Hok).
  - exact (Hlen Hok).
Defined.

(** [postMessage_unparsable_time] on a record whose event time is the
    text yesterday: the envelope carries the reading of the clock. *)
Lemma postMessage_unparsable_time_witness :
  let P := Scenario.sdk in
  let s := Scenario.world tt in
  let p := @postMessage P unit Scenario.accepting Scenario.ca
             Scenario.put_undated s in
  @time_Parse P RFC3339 (ceph.EventTime Scenario.put_undated) =
    Err (errorString "parsing time yesterday") /\
  exists c, new_calls s p.2 = [c] /\
    cloudevents.EventTime (call_event c) = 1700000000000000000 /\
    p.1 = if @cloudevents.IsACK P (call_result c) then None else call_result c.
Proof.
  intros P s p.
  assert (Hparse : @time_Parse P RFC3339 (ceph.EventTime Scenario.put_undated) =
                   Err (errorString "parsing time yesterday"))
    by reflexivity.
  pose proof (@postMessage_unparsable_time P unit Scenario.accepting
                Scenario.ca Scenario.put_undated s _ Hparse) as Hrun.
  cbn [datacodec_Encode P Scenario.sdk Scenario.encode] in Hrun.
  destruct Hrun as (c & Hc & _ & Htime & Hres).
  split; [exact Hparse|].
  exists c. split_and!; [exact Hc|exact Htime|exact Hres].
Defined.

(** [postHandler_malformed_body] on the body of one opening brace. *)
Lemma postHandler_malformed_body_witness :
  let P := Scenario.sdk in
  let r := Scenario.request "POST" "{" in
  let s := Scenario.world tt in
  let p := @postHandler P unit Scenario.accepting Scenario.ca http.NewRecorder r s in
  @json_Unmarshal P (http.content (http.Body r)) =
    Err (errorString "invalid character looking for beginning of value") /\
  http.status p.1 = Some 400 /\
  http.body p.1 =
    "invalid character looking for beginning of value" +:+ http.newline /\
  new_calls s p.2 = [].
Proof.
  intros P r s p.
  assert (Hd : @json_Unmarshal P (http.content (http.Body r)) =
               Err (errorString "invalid character looking for beginning of value"))
    by (vm_compute; reflexivity).
  destruct (@postHandler_malformed_body P unit Scenario.accepting Scenario.ca
              http.NewRecorder r s (http.content (http.Body r)) _
              eq_refl eq_refl Hd eq_refl)
    as (Hst & Hbody & Hcalls & _).
  split_and!; [exact Hd|exact Hst|exact Hbody|exact Hcalls].
Defined.

(** [postHandler_unencodable_record] on a batch of two records with an
    encoder that fails: no call, and the answer 400. *)
Lemma postHandler_unencodable_record_witness :
  let P := Scenario.sdk_refusing in
  let r := Scenario.POST [Scenario.put; Scenario.put_undated] in
  let s := Scenario.world tt in
  let p := @postHandler P unit Scenario.accepting Scenario.ca http.NewRecorder r s in
  @datacodec_Encode P cloudevents.ApplicationJSON Scenario.put =
    Err (errorString "json: unsupported value") /\
  http.status p.1 = Some 400 /\
  http.body p.1 =
    "failed to marshal event data: json: unsupported value" +:+ http.newline /\
  new_calls s p.2 = [].
Proof.
  intros P r s p.
  destruct (@postHandler_unencodable_record P unit Scenario.accepting Scenario.ca
              http.NewRecorder r s (http.content (http.Body r))
              [] Scenario.put [Scenario.put_undated]
              (errorString "json: unsupported value"))
    as (_ & _ & Hst & Hbody & Hcalls & _);
    [reflexivity|reflexivity|vm_compute; reflexivity|reflexivity|reflexivity
    |reflexivity|].
  split_and!; [reflexivity|exact Hst|exact Hbody|exact Hcalls].
Defined.

(** [postMessage_id_nonempty] on the record with the identifiers abc and
    123. *)
Lemma postMessage_id_nonempty_witness :
  let s := Scenario.world tt in
  @datacodec_Encode Scenario.sdk cloudevents.ApplicationJSON Scenario.put =
    Ok (list_byte_of_string (Scenario.render Scenario.put)) /\
  exists c,
    new_calls s (@postMessage Scenario.sdk unit Scenario.accepting Scenario.ca
                   Scenario.put s).2 = [c] /\
    cloudevents.ID (call_event c) <> EmptyString.
Proof.
  intros s. split; [reflexivity|].
  destruct (@postMessage_id_nonempty Scenario.sdk unit Scenario.accepting
              Scenario.ca Scenario.put s _ eq_refl) as (c & Hc & Hiff).
  exists c. split; [exact Hc|].
  apply (proj2 Hiff). vm_compute. discriminate.
Defined.

(** [postHandler_empty_batch] on the batch without records. *)
Lemma postHandler_empty_batch_witness :
  let P := Scenario.sdk in
  let r := Scenario.POST [] in
  let s := Scenario.world tt in
  let p := @postHandler P unit Scenario.accepting Scenario.ca http.NewRecorder r s in
  @json_Unmarshal P (http.content (http.Body r)) = Ok (Scenario.batch []) /\
  http.statusCode p.1 = 200 /\
  http.body p.1 = EmptyString /\
  new_calls s p.2 = [].
Proof.
  intros P r s p.
  assert (Hd : @json_Unmarshal P (http.content (http.Body r)) =
               Ok (Scenario.batch [])) by (vm_compute; reflexivity).
  destruct (@postHandler_empty_batch P unit Scenario.accepting Scenario.ca
              http.NewRecorder r s (http.content (http.Body r)) _
              eq_refl eq_refl Hd eq_refl eq_refl)
    as (Hst & Hbody & Hcalls & _).
  split_and!; [exact Hd|exact Hst|exact Hbody|exact Hcalls].
Defined.

(** ** Further facts about the adapter *)

Section Runs.

Context `{Platform} {C : Type} `{cloudevents.Client C}.

Implicit Types (s : World C) (n : ceph.BucketNotification)
  (ca : cephReceiveAdapter) (w : http.ResponseWriter) (r : http.Request).

Lemma new_logged_app s s' l : logged s' = logged s ++ l -> new_logged s s' = l.
Proof. intros E. unfold new_logged. by rewrite E, drop_app_length. Qed.

(** What [postMessage] does, in full: the clock is read once exactly when
    the event time does not parse; the sink is called with the
    [envelope] of the record unless the record cannot be encoded. *)
Lemma postMessage_run ca n s :
  let p := postMessage ca n s in
  ticks p.2 = (ticks s + (if unparsable n then 1 else 0))%nat /\
  clock p.2 = clock s /\
  match datacodec_Encode cloudevents.ApplicationJSON n with
  | Err err =>
      p.1 = Some (fmt_Errorf_w "failed to marshal event data: " err) /\
      calls p.2 = calls s /\ sink p.2 = sink s
  | Ok data =>
      let e := envelope n (eventTime_of n s) data in
      let a := cloudevents.client_Send (sink s) (tagged ca) e in
      p.1 = (if cloudevents.IsACK a.1 then None else a.1) /\
      calls p.2 =
        calls s ++ [{| call_ctx := tagged ca; call_event := e; call_result := a.1 |}] /\
      sink p.2 = a.2
  end.
Proof.
  destruct s as [k c t l q].
  unfold postMessage, unparsable, eventTime_of, wallclock. rewrite bind_run.
  destruct (time_Parse RFC3339 (ceph.EventTime n)) as [t0|perr];
    cbn [fst snd ret clock ticks].
  all: rewrite SetData_built.
  all: destruct (datacodec_Encode cloudevents.ApplicationJSON n) as [data|err];
    [|cbn; split_and!; try done; lia].
  all: unfold sendCloudEvent; rewrite !bind_run; unfold client_call;
    cbn -[cloudevents.client_Send cloudevents.IsACK envelope].
  all: match goal with
       | |- context [cloudevents.client_Send ?k0 ?ctx ?e] =>
           destruct (cloudevents.client_Send k0 ctx e) as [res k'] eqn:Hsend
       end; cbn -[cloudevents.IsACK envelope].
  all: unfold tagged, ContextWithMetricTag in *;
    cbn -[cloudevents.client_Send cloudevents.IsACK envelope] in Hsend |- *.
  all: rewrite ?Hsend; cbn -[cloudevents.IsACK envelope].
  all: destruct (cloudevents.IsACK res); cbn -[envelope]; split_and!; try done; lia.
Qed.

(** What [sendCloudEvent] does, in full. *)
Lemma sendCloudEvent_run ca ctx (event : cloudevents.Event) s :
  let p := sendCloudEvent ca ctx event s in
  let a := cloudevents.client_Send (sink s) ctx event in
  p.1 = (if cloudevents.IsACK a.1 then None else a.1) /\
  calls p.2 =
    calls s ++ [{| call_ctx := ctx; call_event := event; call_result := a.1 |}] /\
  sink p.2 = a.2 /\ ticks p.2 = ticks s /\ clock p.2 = clock s /\
  exists l, logged p.2 = logged s ++ l /\
    error_lines l = if cloudevents.IsACK a.1 then 0%nat else 1%nat.
Proof.
  destruct s as [k c t l q].
  unfold sendCloudEvent. rewrite !bind_run. unfold client_call.
  cbn -[cloudevents.client_Send cloudevents.IsACK].
  destruct (cloudevents.client_Send k ctx event) as [res k'].
  cbn -[cloudevents.IsACK].
  destruct (cloudevents.IsACK res); cbn; split_and!; try done.
  all: eexists; split; [by rewrite <- !app_assoc|done].
Qed.

(** The ways through the handler: either the request is turned down
    before the loop, with some message and the world untouched up to log
    lines, or it is a readable POST of a batch and the loop decides. *)
Lemma postHandler_paths ca w r s :
  (exists msg,
     (postHandler ca w r s).1 =
       http.Error (http.Header_Set "Allow" "POST" w) msg http.StatusBadRequest /\
     agree s (postHandler ca w r s).2) \/
  (exists ns,
     http.Method r = "POST" /\
     http.failure (http.Body r) = None /\
     json_Unmarshal (http.content (http.Body r)) = Ok ns /\
     (postHandler ca w r s).1 =
       match (postHandler_range ca (ceph.Records ns) s).1 with
       | Some err =>
           http.Error (http.Header_Set "Allow" "POST" w) (Error err)
             http.StatusBadRequest
       | None => http.Header_Set "Allow" "POST" w
       end /\
     agree (postHandler ca w r s).2 (postHandler_range ca (ceph.Records ns) s).2).
Proof.
  destruct (decide (http.Method r = "POST")) as [Hm|Hm].
  - destruct (http.failure (http.Body r)) as [err|] eqn:Hr.
    + left. eexists. by apply postHandler_unreadable.
    + destruct (json_Unmarshal (http.content (http.Body r))) as [ns|err] eqn:Hd.
      * right. exists ns. split_and!; try done; by apply postHandler_decoded.
      * left. eexists. by apply postHandler_undecodable.
  - left. eexists. by apply postHandler_other_method.
Qed.

(** Every call of the loop carries the envelope of the record at the
    same position. *)
Lemma postHandler_range_follow ca records s :
  Forall2 (sent_for ca)
    (take (length (new_calls s (postHandler_range ca records s).2)) records)
    (new_calls s (postHandler_range ca records s).2).
Proof.
  revert s. induction records as [|n records IH]; intros s.
  { cbn. unfold new_calls. rewrite drop_all. constructor. }
  destruct (postHandler_range_cons ca n records s) as (s0 & (_ & _ & _ & Hs) & ->).
  pose proof (postMessage_cases ca n s0) as Hcases.
  destruct (postMessage ca n s0) as [r0 s1]. cbn [fst snd].
  inversion Hcases as [err s' Henc E _|c s' Hm _ Hctx _ E _|c err s' Hm _ Hctx _ E _ _];
    subst.
  - cbn [snd]. rewrite (new_calls_app s s1 []) by (by rewrite E, Hs, app_nil_r).
    constructor.
  - destruct (postHandler_range_calls ca records s1) as [l El].
    assert (E1 : calls s1 = calls s ++ [c]) by (by rewrite E, Hs).
    rewrite (new_calls_trans s s1 _ [c] l E1 El). cbn.
    constructor; [done|].
    specialize (IH s1). by rewrite (new_calls_app s1 _ l El) in IH.
  - cbn [snd]. rewrite (new_calls_app s s1 [c]) by (by rewrite E, Hs).
    cbn. constructor; [done|constructor].
Qed.

Lemma sent_for_tagged ca (l : list ceph.BucketNotification) (k : list Call) :
  Forall2 (sent_for ca) l k -> Forall (fun c => call_ctx c = tagged ca) k.
Proof. induction 1 as [|n c l k [_ Hc] _ IH]; by constructor. Qed.

(** The calls of the handler are the calls of its loop, if it gets to
    the loop, and none otherwise. *)
Lemma postHandler_new_calls ca w r s :
  new_calls s (postHandler ca w r s).2 = [] \/
  exists ns,
    json_Unmarshal (http.content (http.Body r)) = Ok ns /\
    new_calls s (postHandler ca w r s).2 =
    new_calls s (postHandler_range ca (ceph.Records ns) s).2.
Proof.
  destruct (postHandler_paths ca w r s)
    as [(msg & _ & Hs)|(ns & _ & _ & Hd & _ & Hs)].
  - left. by apply agree_new_calls_nil.
  - right. exists ns. split; [done|].
    apply new_calls_agree; [apply agree_refl|done].
Qed.

(** A loop that ends without an error has read the clock once per record
    whose event time does not parse. *)
Lemma postHandler_range_ticks ca records s :
  (postHandler_range ca records s).1 = None ->
  ticks (postHandler_range ca records s).2 =
  (ticks s + length (List.filter unparsable records))%nat.
Proof.
  revert s. induction records as [|n records IH]; intros s.
  { intros _. cbn. lia. }
  destruct (postHandler_range_cons ca n records s) as (s0 & (_ & _ & Ht & _) & ->).
  destruct (postMessage_run ca n s0) as (Hticks & _).
  destruct ((postMessage ca n s0).1); [done|].
  intros Hok. rewrite (IH _ Hok), Hticks, Ht. cbn [List.filter].
  destruct (unparsable n); cbn [length]; lia.
Qed.

End Runs.

(** ** Further properties of the adapter *)

Section Further.

Context `{Platform} {C : Type} `{cloudevents.Client C}.

Implicit Types (s : World C) (n : ceph.BucketNotification)
  (ca : cephReceiveAdapter) (w : http.ResponseWriter) (r : http.Request).

(** X1. The loop over a batch [a ++ b] is the loop over [a] followed, if
    no record of [a] fails, by the loop over [b] from where the first
    ends; if a record of [a] fails, [b] plays no part at all. *)
Theorem postHandler_range_concat ca a b s :
  postHandler_range ca (a ++ b) s =
  match (postHandler_range ca a s).1 with
  | None => postHandler_range ca b (postHandler_range ca a s).2
  | Some _ => postHandler_range ca a s
  end.
Proof.
  revert s. induction a as [|n a IH]; intros s; [done|].
  cbn [postHandler_range app]. rewrite !bind_run. cbn [fst snd].
  destruct ((postMessage ca n _).1) as [err|]; [done|]. apply IH.
Qed.

(** X2. Whatever the request, the calls the handler makes to the sink
    follow the records of the decoded body: call number i carries the
    envelope of record number i and the metric tag of the adapter. No
    record is skipped, sent twice or sent out of order, and there are
    never more calls than records; a body that does not decode gives no
    call. *)
Theorem postHandler_calls_follow_records ca w r s :
  match json_Unmarshal (http.content (http.Body r)) with
  | Ok ns =>
      Forall2 (sent_for ca)
        (take (length (new_calls s (postHandler ca w r s).2)) (ceph.Records ns))
        (new_calls s (postHandler ca w r s).2) /\
      (length (new_calls s (postHandler ca w r s).2) <= length (ceph.Records ns))%nat
  | Err _ => new_calls s (postHandler ca w r s).2 = []
  end.
Proof.
  destruct (postHandler_new_calls ca w r s) as [->|(ns & Hd & ->)].
  - destruct (json_Unmarshal (http.content (http.Body r))); [|done].
    cbn. split; [constructor|lia].
  - rewrite Hd. pose proof (postHandler_range_follow ca (ceph.Records ns) s) as Hf.
    split; [done|]. apply Forall2_length in Hf. rewrite length_take in Hf. lia.
Qed.

(** X3. When the records before record k are posted without an error and
    record k fails, the handler answers with an error although the
    records before k have been delivered: the first k - 1 calls of the
    sink are their acknowledged deliveries, in order. *)
Theorem postHandler_partial_delivery ca w r s body pre n post err :
  http.Method r = "POST" ->
  ioutil_ReadAll (http.Body r) = (body, None) ->
  json_Unmarshal body = Ok {| ceph.Records := pre ++ n :: post |} ->
  http.status w = None ->
  (postHandler_range ca pre s).1 = None ->
  (postMessage ca n (postHandler_range ca pre s).2).1 = Some err ->
  http.statusCode (postHandler ca w r s).1 = http.StatusBadRequest /\
  Forall2 delivered pre
    (take (length pre) (new_calls s (postHandler ca w r s).2)).
Proof.
  intros Hm Hread Hd Hw Hpre Hn.
  apply ioutil_ReadAll_inv in Hread as [<- Hr].
  destruct (postHandler_stops ca w r s pre n post err Hm Hr Hd Hpre Hn)
    as [Ew (_ & _ & _ & Ecalls)].
  split.
  - rewrite Ew. unfold http.statusCode. by rewrite http_Error_status.
  - destruct (postHandler_range_success_calls ca pre s Hpre) as (l1 & E1 & Hl1).
    destruct (postMessage_calls ca n (postHandler_range ca pre s).2) as [l2 E2].
    rewrite (new_calls_app s _ (l1 ++ l2))
      by (by rewrite Ecalls, E2, E1, app_assoc).
    rewrite (Forall2_length _ _ _ Hl1), take_app_length. done.
Qed.

(** X4. The handler answers 200 and writes nothing to the body, or
    answers 400 and writes the text of the error that stopped it and a
    newline: the text 405 Method Not Allowed for another method, the
    read error, the decoding error, or the error of the first record
    that failed. It never answers with any other status. *)
Theorem postHandler_status_200_or_400 ca w r s :
  http.status w = None ->
  (http.statusCode (postHandler ca w r s).1 = http.StatusOK /\
   http.body (postHandler ca w r s).1 = http.body w) \/
  (http.statusCode (postHandler ca w r s).1 = http.StatusBadRequest /\
   exists msg,
     http.body (postHandler ca w r s).1 = http.body w +:+ msg +:+ http.newline /\
     ((http.Method r <> "POST" /\ msg = "405 Method Not Allowed") \/
      (exists err, http.failure (http.Body r) = Some err /\ msg = Error err) \/
      (exists err,
         json_Unmarshal (http.content (http.Body r)) = Err err /\
         msg = Error err) \/
      (exists ns err,
         json_Unmarshal (http.content (http.Body r)) = Ok ns /\
         (postHandler_range ca (ceph.Records ns) s).1 = Some err /\
         msg = Error err))).
Proof.
  intros Hw.
  assert (Herr : forall msg,
    http.statusCode
      (http.Error (http.Header_Set "Allow" "POST" w) msg http.StatusBadRequest)
    = http.StatusBadRequest /\
    http.body
      (http.Error (http.Header_Set "Allow" "POST" w) msg http.StatusBadRequest)
    = http.body w +:+ msg +:+ http.newline).
  { intros msg. split.
    - unfold http.statusCode. by rewrite http_Error_status.
    - by rewrite http_Error_body. }
  destruct (decide (http.Method r = "POST")) as [Hm|Hm].
  - destruct (http.failure (http.Body r)) as [err|] eqn:Hr.
    + destruct (postHandler_unreadable ca w r s err Hm Hr) as [-> _].
      destruct (Herr (Error err)) as [Hst Hbody].
      right. split; [done|]. exists (Error err). split; [done|].
      right. left. by exists err.
    + destruct (json_Unmarshal (http.content (http.Body r))) as [ns|err] eqn:Hd.
      * destruct (postHandler_decoded ca w r s ns Hm Hr Hd) as [-> _].
        destruct ((postHandler_range ca (ceph.Records ns) s).1) as [err|] eqn:Hrun.
        -- destruct (Herr (Error err)) as [Hst Hbody].
           right. split; [done|]. exists (Error err). split; [done|].
           right. right. right. by exists ns, err.
        -- left. unfold http.statusCode. cbn. by rewrite Hw.
      * destruct (postHandler_undecodable ca w r s err Hm Hr Hd) as [-> _].
        destruct (Herr (Error err)) as [Hst Hbody].
        right. split; [done|]. exists (Error err). split; [done|].
        right. right. left. by exists err.
  - destruct (postHandler_other_method ca w r s Hm) as [-> _].
    destruct (Herr "405 Method Not Allowed") as [Hst Hbody].
    right. split; [done|]. exists "405 Method Not Allowed". split; [done|].
    by left.
Qed.

(** X5. On success the handler leaves the headers as they were but for
    Allow; with an error answer come the content type text/plain, the
    nosniff option, and no Content-Length. *)
Theorem postHandler_response_headers ca w r s :
  http.status w = None ->
  (http.status (postHandler ca w r s).1 = None ->
   http.header (postHandler ca w r s).1 = <["Allow" := ["POST"]]> (http.header w)) /\
  (http.status (postHandler ca w r s).1 <> None ->
   http.header (postHandler ca w r s).1 !! "Content-Type" =
     Some ["text/plain; charset=utf-8"] /\
   http.header (postHandler ca w r s).1 !! "X-Content-Type-Options" =
     Some ["nosniff"] /\
   http.header (postHandler ca w r s).1 !! "Content-Length" = None).
Proof.
  intros Hw.
  assert (Herr : forall msg,
    let w' := http.Error (http.Header_Set "Allow" "POST" w) msg
                http.StatusBadRequest in
    http.status w' <> None /\
    http.header w' !! "Content-Type" = Some ["text/plain; charset=utf-8"] /\
    http.header w' !! "X-Content-Type-Options" = Some ["nosniff"] /\
    http.header w' !! "Content-Length" = None).
  { intros msg. destruct w as [h st b]. cbn in Hw. subst st.
    unfold http.Error, http.Write, http.WriteHeader. cbn. split_and!.
    - done.
    - by rewrite lookup_insert_ne, lookup_insert_eq.
    - by rewrite lookup_insert_eq.
    - by rewrite !lookup_insert_ne, lookup_delete_eq. }
  destruct (postHandler_paths ca w r s)
    as [(msg & -> & _)|(ns & _ & _ & _ & -> & _)].
  - destruct (Herr msg) as (Hst & Hrest). split; [done|by intros _].
  - destruct ((postHandler_range ca (ceph.Records ns) s).1) as [err|].
    + destruct (Herr (Error err)) as (Hst & Hrest). split; [done|by intros _].
    + split; [done|]. cbn. by rewrite Hw.
Qed.

(** X6. A POST whose body cannot be read to its end is answered 400 with
    the text of the read error; what was read is not decoded, whatever
    it is: the sink is not called and the clock is not read. *)
Theorem postHandler_unreadable_body ca w r s body err :
  http.Method r = "POST" ->
  ioutil_ReadAll (http.Body r) = (body, Some err) ->
  http.status w = None ->
  http.status (postHandler ca w r s).1 = Some http.StatusBadRequest /\
  http.body (postHandler ca w r s).1 =
    http.body w +:+ Error err +:+ http.newline /\
  new_calls s (postHandler ca w r s).2 = [] /\
  agree s (postHandler ca w r s).2.
Proof.
  intros Hm Hread Hw.
  apply ioutil_ReadAll_inv in Hread as [_ Hr].
  destruct (postHandler_unreadable ca w r s err Hm Hr) as [Ew Hs].
  rewrite Ew. split_and!.
  - by apply http_Error_status.
  - by rewrite http_Error_body.
  - by apply agree_new_calls_nil.
  - done.
Qed.

(** X7. A request whose method is not the string POST is answered with
    the status 400 and the line 405 Method Not Allowed, whatever its
    body is; the sink is not called and the clock is not read. *)
Theorem postHandler_method_rejected ca w r s :
  http.Method r <> "POST" ->
  http.status w = None ->
  http.status (postHandler ca w r s).1 = Some http.StatusBadRequest /\
  http.body (postHandler ca w r s).1 =
    http.body w +:+ "405 Method Not Allowed" +:+ http.newline /\
  new_calls s (postHandler ca w r s).2 = [] /\
  agree s (postHandler ca w r s).2.
Proof.
  intros Hm Hw.
  destruct (postHandler_other_method ca w r s Hm) as [Ew Hs].
  rewrite Ew. split_and!.
  - by apply http_Error_status.
  - by rewrite http_Error_body.
  - by apply agree_new_calls_nil.
  - done.
Qed.

(** X8. For a record whose event time parses, the envelope carries the
    parsed time and the clock is not read, whether or not the record is
    then encoded and delivered. *)
Theorem postMessage_parsed_time ca n s t :
  time_Parse RFC3339 (ceph.EventTime n) = Ok t ->
  ticks (postMessage ca n s).2 = ticks s /\
  match datacodec_Encode cloudevents.ApplicationJSON n with
  | Ok _ =>
      exists c, new_calls s (postMessage ca n s).2 = [c] /\
        cloudevents.EventTime (call_event c) = t
  | Err _ => new_calls s (postMessage ca n s).2 = []
  end.
Proof.
  intros Hparse. destruct (postMessage_run ca n s) as (Hticks & _ & Hrun).
  unfold unparsable in Hticks. rewrite Hparse in Hticks. split; [lia|].
  destruct (datacodec_Encode cloudevents.ApplicationJSON n) as [data|err].
  - destruct Hrun as (_ & Ecalls & _). eexists. split.
    + by apply new_calls_app.
    + cbn. unfold eventTime_of. by rewrite Hparse.
  - destruct Hrun as (_ & Ecalls & _). apply new_calls_app.
    by rewrite Ecalls, app_nil_r.
Qed.

(** X9. When a POST of a batch is processed without an error, the
    handler has read the clock once for each record whose event time
    does not parse, and not otherwise. *)
Theorem postHandler_clock_reads ca w r s body ns :
  http.Method r = "POST" ->
  ioutil_ReadAll (http.Body r) = (body, None) ->
  json_Unmarshal body = Ok ns ->
  (postHandler_range ca (ceph.Records ns) s).1 = None ->
  ticks (postHandler ca w r s).2 =
  (ticks s + length (List.filter unparsable (ceph.Records ns)))%nat.
Proof.
  intros Hm Hread Hd Hok.
  apply ioutil_ReadAll_inv in Hread as [<- Hr].
  destruct (postHandler_decoded ca w r s ns Hm Hr Hd) as [_ (_ & _ & Ht & _)].
  rewrite Ht. by apply postHandler_range_ticks.
Qed.

(** X10. For a record that can be encoded, the one call of the sink
    carries the metric tag of the adapter and the event whose every
    attribute is as in [envelope]: beside id, source, type and subject,
    the content type application/json, the encoded record as data, and
    the parsed time or the reading of the clock. *)
Theorem postMessage_payload ca n s data :
  datacodec_Encode cloudevents.ApplicationJSON n = Ok data ->
  exists res,
    new_calls s (postMessage ca n s).2 =
      [{| call_ctx := tagged ca;
          call_event := envelope n (eventTime_of n s) data;
          call_result := res |}] /\
    (res, sink (postMessage ca n s).2) =
      cloudevents.client_Send (sink s) (tagged ca)
        (envelope n (eventTime_of n s) data).
Proof.
  intros Henc. destruct (postMessage_run ca n s) as (_ & _ & Hrun).
  rewrite Henc in Hrun. cbn zeta in Hrun. destruct Hrun as (_ & Ecalls & Esink).
  eexists. split; [by apply new_calls_app|].
  rewrite Esink. by destruct (cloudevents.client_Send _ _ _).
Qed.

(** X11. [sendCloudEvent] calls the sink once, with the context and the
    event it is given. It returns nil when the result is an
    acknowledgement, also one that is not nil, and the result itself
    otherwise; it logs at error level exactly when it returns an
    error. It does not read the clock. *)
Theorem sendCloudEvent_contract ca ctx (event : cloudevents.Event) s :
  let p := sendCloudEvent ca ctx event s in
  let a := cloudevents.client_Send (sink s) ctx event in
  new_calls s p.2 =
    [{| call_ctx := ctx; call_event := event; call_result := a.1 |}] /\
  sink p.2 = a.2 /\
  p.1 = (if cloudevents.IsACK a.1 then None else a.1) /\
  error_lines (new_logged s p.2) =
    (if cloudevents.IsACK a.1 then 0%nat else 1%nat) /\
  ticks p.2 = ticks s.
Proof.
  cbn zeta.
  destruct (sendCloudEvent_run ca ctx event s)
    as (Hres & Ecalls & Esink & Hticks & _ & l & El & Hl).
  split_and!; try done.
  - by apply new_calls_app.
  - by rewrite (new_logged_app _ _ l El).
Qed.

(** X12. An adapter is built exactly from a non-nil pointer to an
    [envConfig]; every call it makes to the sink, whatever the request,
    carries the metric tag with the namespace and the name of that
    configuration and the resource group
    cephsources.sources.knative.dev. *)
Theorem NewAdapter_tags processed ca w r s :
  NewAdapter processed = Some ca ->
  exists env,
    processed = accessor_envConfig (Some env) /\
    Forall
      (fun c =>
         ctx_metricTag (call_ctx c) =
           Some {| adapter.Namespace := env.Namespace (EnvConfig env);
                   adapter.Name := env.Name (EnvConfig env);
                   adapter.ResourceGroup := "cephsources.sources.knative.dev" |})
      (new_calls s (postHandler ca w r s).2).
Proof.
  intros Hnew. destruct processed as [[env|]|]; try discriminate.
  injection Hnew as <-. exists env. split; [done|].
  destruct (postHandler_new_calls
              {| port := Port env; name := env.Name (EnvConfig env);
                 namespace := env.Namespace (EnvConfig env) |} w r s)
    as [->|(ns & _ & ->)]; [constructor|].
  eapply Forall_impl.
  - eapply sent_for_tagged, postHandler_range_follow.
  - intros c ->. done.
Qed.

End Further.

(** ** The further properties in the concrete setting *)

(** [postHandler_partial_delivery] on a batch of three records and a sink
    that rejects its second call: the first record stays delivered. *)
Lemma postHandler_partial_delivery_witness :
  let P := Scenario.sdk in
  let K := Scenario.rejecting 1 in
  let r := Scenario.POST [Scenario.put; Scenario.put_undated; Scenario.put] in
  let s := Scenario.world 0%nat in
  let p := @postHandler P nat K Scenario.ca http.NewRecorder r s in
  (@postMessage P nat K Scenario.ca Scenario.put_undated
     (@postHandler_range P nat K Scenario.ca [Scenario.put] s).2).1 =
    Some (errorString "503 Service Unavailable") /\
  http.statusCode p.1 = 400 /\
  Forall2 (@delivered P) [Scenario.put] (take 1 (new_calls s p.2)).
Proof.
  intros P K r s p.
  assert (H2 : (@postMessage P nat K Scenario.ca Scenario.put_undated
                  (@postHandler_range P nat K Scenario.ca [Scenario.put] s).2).1 =
               Some (errorString "503 Service Unavailable"))
    by (vm_compute; reflexivity).
  destruct (@postHandler_partial_delivery P nat K Scenario.ca http.NewRecorder r s
              (http.content (http.Body r)) [Scenario.put] Scenario.put_undated
              [Scenario.put] (errorString "503 Service Unavailable"))
    as (Hst & Hpre);
    [reflexivity|reflexivity|vm_compute; reflexivity|reflexivity
    |vm_compute; reflexivity|exact H2|].
  split_and!; [exact H2|exact Hst|exact Hpre].
Defined.

(** [postHandler_status_200_or_400] on a DELETE request. *)
Lemma postHandler_status_200_or_400_witness :
  let r := Scenario.request "DELETE" EmptyString in
  let s := Scenario.world tt in
  let p := @postHandler Scenario.sdk unit Scenario.accepting Scenario.ca
             http.NewRecorder r s in
  http.status http.NewRecorder = None /\
  http.statusCode p.1 = 400 /\
  http.body p.1 = "405 Method Not Allowed" +:+ http.newline.
Proof.
  intros r s p. split; [reflexivity|].
  destruct (@postHandler_status_200_or_400 Scenario.sdk unit Scenario.accepting
              Scenario.ca http.NewRecorder r s eq_refl)
    as [[Hst _]|(Hst & msg & Hbody & _)].
  - exfalso. revert Hst. vm_compute. discriminate.
  - split; [exact Hst|]. vm_compute. reflexivity.
Defined.

(** [postHandler_response_headers] on a body that does not decode. *)
Lemma postHandler_response_headers_witness :
  let r := Scenario.request "POST" "[" in
  let s := Scenario.world tt in
  let p := @postHandler Scenario.sdk unit Scenario.accepting Scenario.ca
             http.NewRecorder r s in
  http.status p.1 <> None /\
  http.header p.1 !! "Content-Type" = Some ["text/plain; charset=utf-8"] /\
  http.header p.1 !! "X-Content-Type-Options" = Some ["nosniff"] /\
  http.header p.1 !! "Content-Length" = None.
Proof.
  intros r s p.
  assert (Hst : http.status p.1 <> None) by (vm_compute; discriminate).
  split; [exact Hst|].
  exact (proj2 (@postHandler_response_headers Scenario.sdk unit Scenario.accepting
                  Scenario.ca http.NewRecorder r s eq_refl) Hst).
Defined.

(** [postHandler_unreadable_body] on a POST whose body breaks off after
    the text of a whole batch. *)
Lemma postHandler_unreadable_body_witness :
  let r := Scenario.broken "POST"
             (Scenario.render_batch (Scenario.batch [Scenario.put]))
             (errorString "unexpected EOF") in
  let s := Scenario.world tt in
  let p := @postHandler Scenario.sdk unit Scenario.accepting Scenario.ca
             http.NewRecorder r s in
  http.failure (http.Body r) = Some (errorString "unexpected EOF") /\
  http.status p.1 = Some 400 /\
  http.body p.1 = "unexpected EOF" +:+ http.newline /\
  new_calls s p.2 = [].
Proof.
  intros r s p.
  destruct (@postHandler_unreadable_body Scenario.sdk unit Scenario.accepting
              Scenario.ca http.NewRecorder r s (http.content (http.Body r))
              (errorString "unexpected EOF") eq_refl eq_refl eq_refl)
    as (Hst & Hbody & Hcalls & _).
  split_and!; [reflexivity|exact Hst|exact Hbody|exact Hcalls].
Defined.

(** [postHandler_method_rejected] on a PUT that carries a whole batch. *)
Lemma postHandler_method_rejected_witness :
  let r := Scenario.request "PUT"
             (Scenario.render_batch (Scenario.batch [Scenario.put])) in
  let s := Scenario.world tt in
  let p := @postHandler Scenario.sdk unit Scenario.accepting Scenario.ca
             http.NewRecorder r s in
  http.Method r <> "POST" /\
  http.status p.1 = Some 400 /\
  http.body p.1 = "405 Method Not Allowed" +:+ http.newline /\
  new_calls s p.2 = [].
Proof.
  intros r s p.
  assert (Hm : http.Method r <> "POST") by discriminate.
  destruct (@postHandler_method_rejected Scenario.sdk unit Scenario.accepting
              Scenario.ca http.NewRecorder r s Hm eq_refl)
    as (Hst & Hbody & Hcalls & _).
  split_and!; [exact Hm|exact Hst|exact Hbody|exact Hcalls].
Defined.

(** [postMessage_parsed_time] on a record dated 2021-01-01T00:00:00Z. *)
Lemma postMessage_parsed_time_witness :
  let P := Scenario.sdk in
  let s := Scenario.world tt in
  let p := @postMessage P unit Scenario.accepting Scenario.ca Scenario.put s in
  @time_Parse P RFC3339 (ceph.EventTime Scenario.put) = Ok 1609459200000000000 /\
  ticks p.2 = 0%nat /\
  exists c, new_calls s p.2 = [c] /\
    cloudevents.EventTime (call_event c) = 1609459200000000000.
Proof.
  intros P s p.
  destruct (@postMessage_parsed_time P unit Scenario.accepting Scenario.ca
              Scenario.put s _ eq_refl) as (Hticks & Hcall).
  split_and!; [reflexivity|exact Hticks|exact Hcall].
Defined.

(** [postHandler_clock_reads] on a batch of two records, one of them
    undated, with a sink whose answer 202 Accepted is an
    acknowledgement: one reading of the clock. *)
Lemma postHandler_clock_reads_witness :
  let P := Scenario.sdk_lenient in
  let K := Scenario.answering (Some (errorString "202 Accepted")) in
  let r := Scenario.POST [Scenario.put; Scenario.put_undated] in
  let s := Scenario.world tt in
  (@postHandler_range P unit K Scenario.ca
     [Scenario.put; Scenario.put_undated] s).1 = None /\
  ticks (@postHandler P unit K Scenario.ca http.NewRecorder r s).2 = 1%nat.
Proof.
  intros P K r s.
  assert (Hok : (@postHandler_range P unit K Scenario.ca
                   [Scenario.put; Scenario.put_undated] s).1 = None)
    by (vm_compute; reflexivity).
  split; [exact Hok|].
  exact (@postHandler_clock_reads P unit K Scenario.ca http.NewRecorder r s
           (http.content (http.Body r))
           (Scenario.batch [Scenario.put; Scenario.put_undated])
           eq_refl eq_refl (ltac:(vm_compute; reflexivity)) Hok).
Defined.

(** [postMessage_payload] on the record ObjectCreated:Put of file.txt. *)
Lemma postMessage_payload_witness :
  let P := Scenario.sdk in
  let s := Scenario.world tt in
  let data := list_byte_of_string (Scenario.render Scenario.put) in
  @datacodec_Encode P cloudevents.ApplicationJSON Scenario.put = Ok data /\
  exists res,
    new_calls s (@postMessage P unit Scenario.accepting Scenario.ca
                   Scenario.put s).2 =
      [{| call_ctx := tagged Scenario.ca;
          call_event := envelope Scenario.put 1609459200000000000 data;
          call_result := res |}].
Proof.
  intros P s data. split; [reflexivity|].
  destruct (@postMessage_payload P unit Scenario.accepting Scenario.ca
              Scenario.put s data eq_refl) as (res & Hcalls & _).
  exists res. exact Hcalls.
Defined.

(** [NewAdapter_tags] on the configuration ceph-bucket in the namespace
    storage, and a batch of one record. *)
Lemma NewAdapter_tags_witness :
  let ca := {| port := "8888"; name := "ceph-bucket"; namespace := "storage" |} in
  let s := Scenario.world tt in
  NewAdapter (accessor_envConfig (Some Scenario.settings)) = Some ca /\
  Forall
    (fun c =>
       ctx_metricTag (call_ctx c) =
         Some {| adapter.Namespace := "storage";
                 adapter.Name := "ceph-bucket";
                 adapter.ResourceGroup := "cephsources.sources.knative.dev" |})
    (new_calls s (@postHandler Scenario.sdk unit Scenario.accepting ca
                    http.NewRecorder (Scenario.POST [Scenario.put]) s).2).
Proof.
  intros ca s. split; [reflexivity|].
  destruct (@NewAdapter_tags Scenario.sdk unit Scenario.accepting
              (accessor_envConfig (Some Scenario.settings)) ca
              http.NewRecorder (Scenario.POST [Scenario.put]) s eq_refl)
    as (env & Henv & Htags).
  injection Henv as <-. exact Htags.
Defined.
